(** * Cache/sync reconciler and analytics batcher of the business directory

    A shallow embedding of three source modules of the web client:

    - the cache service (IndexedDB stores, data-version bookkeeping,
      [checkSyncNeeded], [smartSync]);
    - the remote data service's [getDataVersion];
    - the tracking service (event queue, flush timer, presence ping).

    Asynchronous functions are embedded as computations over an explicit
    world: awaiting a request is a step that either returns or throws. *)

From Stdlib Require Import ZArith List Bool Lia.
From stdpp Require Import gmap strings list fin_maps.

Local Open Scope Z_scope.
Local Open Scope string_scope.
Local Open Scope list_scope.

(** * Part I: the embedding *)

(** ** Records of the data model (types.ts) *)

Record Category := mkCategory {
  category_id : string;
  category_name : string;
  category_icon : string
}.

Record Business := mkBusiness {
  business_id : string;
  category : string;
  shopName : string;
  ownerName : string;
  contactNumber : string;
  address : option string;
  openingHours : option string;
  services : option (list string);
  homeDelivery : option bool;
  paymentOptions : option (list string)
}.

(** ** Exceptions and outcomes of an awaited computation *)

Inductive JsError :=
| StoreError                          (* a rejected IndexedDB request *)
| RemoteError (msg : string)          (* a rejected network call *)
| ApiError (code message : string).   (* an error object of the data API *)

Inductive outcome (A : Type) :=
| Returned (a : A)
| Threw (e : JsError).
Arguments Returned {A} a.
Arguments Threw {A} e.

(** ** The cache service: IndexedDB stores and sync strategy *)

Module Cache.

(** The value type of the businesses store, [Business & { _synced_at }]. *)
Record CachedBusiness := mkCached {
  cached : Business;
  _synced_at : Z
}.

Record DataVersion := mkVersion {
  business_count : Z;
  last_updated : string;   (* ISO timestamp of last change *)
  last_sync : Z            (* local timestamp of last successful sync *)
}.

(** The metadata store's value; the only value the code ever stores under
    a key is a [DataVersion] (key ['data_version']). *)
Record MetaEntry := mkMeta {
  key : string;
  value : DataVersion;
  updated_at : Z
}.

Inductive StoreName := SBusinesses | SCategories | SMetadata.

Inductive Accessor := FetchRemoteVersion | FetchAllData.

(** What the embedding records of a run: the calls of the two
    caller-supplied accessors and every IndexedDB request. *)
Inductive Event :=
| EvCall (f : Accessor)
| EvOpenDB
| EvGet (s : StoreName) (k : string)
| EvGetAll (s : StoreName)
| EvTxBegin (s : StoreName)
| EvClear (s : StoreName)
| EvPut (s : StoreName) (k : string)
| EvTxDone (s : StoreName).

#[global] Instance StoreName_eq_dec : EqDecision StoreName.
Proof. solve_decision. Defined.
#[global] Instance Accessor_eq_dec : EqDecision Accessor.
Proof. solve_decision. Defined.
#[global] Instance Event_eq_dec : EqDecision Event.
Proof. solve_decision. Defined.

(** The world a cache-service call runs in.  [faults n] tells whether the
    [n]-th IndexedDB request of the run is rejected; [ops] counts the
    requests made so far. *)
Record World := mkWorld {
  dbInstance : bool;
  businesses : gmap string CachedBusiness;
  categories : gmap string Category;
  metadata : gmap string MetaEntry;
  clock : Z;
  faults : nat -> bool;
  ops : nat;
  trace : list Event
}.

Definition M (A : Type) : Type := World -> outcome A * World.

Definition ret {A} (a : A) : M A := fun w => (Returned a, w).

Definition bind {A B} (m : M A) (k : A -> M B) : M B :=
  fun w =>
    match m w with
    | (Returned a, w') => k a w'
    | (Threw e, w') => (Threw e, w')
    end.

Definition try_catch {A} (body : M A) (handler : JsError -> M A) : M A :=
  fun w =>
    match body w with
    | (Returned a, w') => (Returned a, w')
    | (Threw e, w') => handler e w'
    end.

Declare Scope js_scope.
Delimit Scope js_scope with js.
Notation "x <- m ;; k" := (bind m (fun x => k))
  (at level 100, m at next level, right associativity) : js_scope.
Notation "m ;;; k" := (bind m (fun _ => k))
  (at level 100, right associativity) : js_scope.
Local Open Scope js_scope.

(** [Promise.all] of two promises: both computations are started (the
    second runs even when the first rejects) and the result rejects when
    either does.  The embedding runs them in array order. *)
Definition promise_all2 {A B} (a : M A) (b : M B) : M (A * B) :=
  fun w =>
    let (ra, w1) := a w in
    let (rb, w2) := b w1 in
    match ra, rb with
    | Returned x, Returned y => (Returned (x, y), w2)
    | Threw e, _ => (Threw e, w2)
    | _, Threw e => (Threw e, w2)
    end.

Definition promise_all3 {A B C} (a : M A) (b : M B) (c : M C) : M (A * B * C) :=
  fun w =>
    let (ra, w1) := a w in
    let (rb, w2) := b w1 in
    let (rc, w3) := c w2 in
    match ra, rb, rc with
    | Returned x, Returned y, Returned z => (Returned (x, y, z), w3)
    | Threw e, _, _ => (Threw e, w3)
    | _, Threw e, _ => (Threw e, w3)
    | _, _, Threw e => (Threw e, w3)
    end.

(** *** World updates *)

Definition set_dbInstance (b : bool) (w : World) : World :=
  mkWorld b (businesses w) (categories w) (metadata w) (clock w)
          (faults w) (ops w) (trace w).

Definition set_businesses (m : gmap string CachedBusiness) (w : World) : World :=
  mkWorld (dbInstance w) m (categories w) (metadata w) (clock w)
          (faults w) (ops w) (trace w).

Definition set_categories (m : gmap string Category) (w : World) : World :=
  mkWorld (dbInstance w) (businesses w) m (metadata w) (clock w)
          (faults w) (ops w) (trace w).

Definition set_metadata (m : gmap string MetaEntry) (w : World) : World :=
  mkWorld (dbInstance w) (businesses w) (categories w) m (clock w)
          (faults w) (ops w) (trace w).

Definition record (e : Event) (w : World) : World :=
  mkWorld (dbInstance w) (businesses w) (categories w) (metadata w) (clock w)
          (faults w) (ops w) (trace w ++ [e]).

Definition count_request (w : World) : World :=
  mkWorld (dbInstance w) (businesses w) (categories w) (metadata w) (clock w)
          (faults w) (S (ops w)) (trace w).

(** *** Primitive steps *)

(** One awaited IndexedDB request: it is recorded, consumes one entry of
    the fault schedule and rejects when that entry says so. *)
Definition idb_request (e : Event) : M unit :=
  fun w =>
    let w' := count_request (record e w) in
    if faults w (ops w) then (Threw StoreError, w') else (Returned tt, w').

Definition Date_now : M Z := fun w => (Returned (clock w), w).

(** Calling a caller-supplied asynchronous accessor whose promise settles
    with [o]. *)
Definition call {A} (f : Accessor) (o : outcome A) : M A :=
  fun w => (o, record (EvCall f) w).

(** A readwrite transaction on one store: when a request inside it is
    rejected the transaction aborts and the store keeps its old
    contents. *)
Definition transaction_businesses {A} (body : M A) : M A :=
  fun w =>
    match body (record (EvTxBegin SBusinesses) w) with
    | (Returned a, w') => (Returned a, w')
    | (Threw e, w') => (Threw e, set_businesses (businesses w) w')
    end.

Definition transaction_categories {A} (body : M A) : M A :=
  fun w =>
    match body (record (EvTxBegin SCategories) w) with
    | (Returned a, w') => (Returned a, w')
    | (Threw e, w') => (Threw e, set_categories (categories w) w')
    end.

Fixpoint for_of {A} (l : list A) (body : A -> M unit) : M unit :=
  match l with
  | [] => ret tt
  | x :: l' => body x ;;; for_of l' body
  end.

(** *** The operations of the cache service *)

Definition initDB : M unit :=
  fun w =>
    if dbInstance w then (Returned tt, w)
    else (idb_request EvOpenDB ;;; (fun w' => (Returned tt, set_dbInstance true w'))) w.

Definition getMetadata (k : string) : M (option DataVersion) :=
  initDB ;;;
  idb_request (EvGet SMetadata k) ;;;
  (fun w => (Returned (value <$> metadata w !! k), w)).

Definition setMetadata (k : string) (v : DataVersion) : M unit :=
  initDB ;;;
  now <- Date_now ;;
  idb_request (EvPut SMetadata k) ;;;
  (fun w => (Returned tt, set_metadata (<[k := mkMeta k v now]> (metadata w)) w)).

Definition getLocalVersion : M (option DataVersion) :=
  getMetadata "data_version".

Definition setLocalVersion (version : DataVersion) : M unit :=
  setMetadata "data_version" version.

Definition getCachedCategories : M (list Category) :=
  initDB ;;;
  idb_request (EvGetAll SCategories) ;;;
  (fun w => (Returned (snd <$> map_to_list (categories w)), w)).

Definition setCachedCategories (cs : list Category) : M unit :=
  initDB ;;;
  transaction_categories (
    idb_request (EvClear SCategories) ;;;
    (fun w => (Returned tt, set_categories ∅ w)) ;;;
    for_of cs (fun c =>
      idb_request (EvPut SCategories (category_id c)) ;;;
      (fun w => (Returned tt,
                 set_categories (<[category_id c := c]> (categories w)) w))) ;;;
    idb_request (EvTxDone SCategories)).

Definition getCachedBusinesses : M (list Business) :=
  initDB ;;;
  idb_request (EvGetAll SBusinesses) ;;;
  (fun w => (Returned (cached <$> (snd <$> map_to_list (businesses w))), w)).

Definition setCachedBusinesses (bs : list Business) : M unit :=
  initDB ;;;
  transaction_businesses (
    idb_request (EvClear SBusinesses) ;;;
    (fun w => (Returned tt, set_businesses ∅ w)) ;;;
    now <- Date_now ;;
    for_of bs (fun b =>
      idb_request (EvPut SBusinesses (business_id b)) ;;;
      (fun w => (Returned tt,
                 set_businesses
                   (<[business_id b := mkCached b now]> (businesses w)) w))) ;;;
    idb_request (EvTxDone SBusinesses)).

(** *** Sync strategy *)

Inductive SyncAction := no_change | full_sync | incremental_sync.

Record SyncResult := mkSyncResult {
  action : SyncAction;
  result_businesses : list Business;
  result_categories : list Category;
  fromCache : bool
}.

(** What the heavy accessor resolves with. *)
Record AllData := mkAllData {
  data_businesses : list Business;
  data_categories : list Category
}.

Definition checkSyncNeeded (remoteVersion : DataVersion) : M SyncAction :=
  localVersion <- getLocalVersion ;;
  match localVersion with
  | None => ret full_sync
  | Some localVersion =>
      if negb (Z.eqb (business_count localVersion)
                     (business_count remoteVersion))
      then ret full_sync
      else if negb (String.eqb (last_updated localVersion)
                               (last_updated remoteVersion))
      then ret full_sync
      else ret no_change
  end.

Definition read_cache : M SyncResult :=
  r <- promise_all2 getCachedBusinesses getCachedCategories ;;
  ret (mkSyncResult no_change (fst r) (snd r) true).

(** [smartSync]; the two accessors are given by the outcome their promise
    settles with. *)
Definition smartSync (fetchRemoteVersion : outcome DataVersion)
    (fetchAllData : outcome AllData) : M SyncResult :=
  try_catch
    (remoteVersion <- call FetchRemoteVersion fetchRemoteVersion ;;
     syncAction <- checkSyncNeeded remoteVersion ;;
     match syncAction with
     | no_change => read_cache
     | _ =>
         data <- call FetchAllData fetchAllData ;;
         now <- Date_now ;;
         promise_all3
           (setCachedBusinesses (data_businesses data))
           (setCachedCategories (data_categories data))
           (setLocalVersion
              (mkVersion (business_count remoteVersion)
                         (last_updated remoteVersion) now)) ;;;
         ret (mkSyncResult full_sync (data_businesses data)
                           (data_categories data) false)
     end)
    (fun _ => read_cache).

(** *** Runs in which no IndexedDB request is rejected *)

Definition healthy (w : World) : Prop := forall n, faults w n = false.

(** The decision [checkSyncNeeded] takes once the local descriptor is
    loaded. *)
Definition stale (localVersion : option DataVersion)
    (remoteVersion : DataVersion) : Prop :=
  match localVersion with
  | None => True
  | Some lv =>
      business_count lv <> business_count remoteVersion \/
      last_updated lv <> last_updated remoteVersion
  end.

Definition local_version (w : World) : option DataVersion :=
  value <$> metadata w !! "data_version".

(** The world after [initDB] succeeded. *)
Definition opened (w : World) : World :=
  if dbInstance w then w
  else set_dbInstance true (count_request (record EvOpenDB w)).

Definition stamp (now : Z) (b : Business) : string * CachedBusiness :=
  (business_id b, mkCached b now).

Definition put_events (s : StoreName) (ks : list string) : list Event :=
  map (EvPut s) ks.

(** The world after a committed replace-all of a collection, from the
    world [w] in which the transaction was created. *)
Definition replaced_businesses (bs : list Business) (w : World) : World :=
  mkWorld (dbInstance w)
    (foldl (fun m b => <[business_id b := mkCached b (clock w)]> m) ∅ bs)
    (categories w) (metadata w) (clock w) (faults w)
    (S (S (ops w) + length bs))%nat
    (trace w ++ [EvTxBegin SBusinesses; EvClear SBusinesses] ++
       put_events SBusinesses (business_id <$> bs) ++ [EvTxDone SBusinesses]).

Definition replaced_categories (cs : list Category) (w : World) : World :=
  mkWorld (dbInstance w) (businesses w)
    (foldl (fun m c => <[category_id c := c]> m) ∅ cs)
    (metadata w) (clock w) (faults w)
    (S (S (ops w) + length cs))%nat
    (trace w ++ [EvTxBegin SCategories; EvClear SCategories] ++
       put_events SCategories (category_id <$> cs) ++ [EvTxDone SCategories]).

(** *** The decision of [checkSyncNeeded] *)

Definition decide_sync (localVersion : option DataVersion)
    (remoteVersion : DataVersion) : SyncAction :=
  match localVersion with
  | None => full_sync
  | Some localVersion =>
      if negb (Z.eqb (business_count localVersion)
                     (business_count remoteVersion))
      then full_sync
      else if negb (String.eqb (last_updated localVersion)
                               (last_updated remoteVersion))
      then full_sync
      else no_change
  end.

(** *** Counting events of a run *)

Definition occurrences (e : Event) (evs : list Event) : nat :=
  count_occ Event_eq_dec evs e.

(** Requests that change a store. *)
Definition is_write (e : Event) : bool :=
  match e with
  | EvClear _ | EvPut _ _ => true
  | _ => false
  end.

(** The version check, opening the database and reading from it. *)
Definition is_read (e : Event) : bool :=
  match e with
  | EvCall FetchRemoteVersion | EvOpenDB | EvGet _ _ | EvGetAll _ => true
  | _ => false
  end.

(** [w'] comes from [w] by read events alone: stores, clock and fault
    schedule are the same. *)
Definition only_read (w w' : World) : Prop :=
  businesses w' = businesses w /\ categories w' = categories w /\
  metadata w' = metadata w /\ clock w' = clock w /\
  faults w' = faults w /\
  exists evs, trace w' = trace w ++ evs /\ forallb is_read evs = true.

(** A computation that only reads, whichever requests are rejected. *)
Definition read_only {A} (m : M A) : Prop :=
  forall w, only_read w (snd (m w)).

(** *** The scenarios of the specification *)

Definition shop (k : string) : Business :=
  mkBusiness k "grocery" ("Shop " ++ k) "Owner" "9999999999"
             None None None None None.

Definition five_shops : list Business :=
  [shop "b1"; shop "b2"; shop "b3"; shop "b4"; shop "b5"].

Definition grocery : Category := mkCategory "grocery" "Grocery" "fa-store".

Definition version_12 : DataVersion :=
  mkVersion 12 "2024-01-01T00:00:00Z" 1600000000000.

(** A store that answers every request, holds five businesses and one
    category and remembers [version_12]. *)
Definition synced_store : World :=
  mkWorld false
    (list_to_map (stamp 1600000000000 <$> five_shops))
    {[ "grocery" := grocery ]}
    {[ "data_version" := mkMeta "data_version" version_12 1600000000000 ]}
    1700000000000 (fun _ => false) 0 [].

(** A store none of whose requests succeeds (IndexedDB unavailable), with
    nothing cached and no connection yet. *)
Definition unavailable_store : World :=
  mkWorld false ∅ ∅ ∅ 1700000000000 (fun _ => true) 0 [].

Definition version_13 : DataVersion :=
  mkVersion 13 "2024-01-02T00:00:00Z" 1700000000000.

(** *** Single-record and maintenance operations

    Their requests consume the fault schedule like every other request;
    the trace keeps to the events of the sync path, so a delete and a
    count are not recorded. *)

Definition idb_untraced_request : M unit :=
  fun w =>
    let w' := count_request w in
    if faults w (ops w) then (Threw StoreError, w') else (Returned tt, w').

Definition updateCachedBusiness (business : Business) : M unit :=
  initDB ;;;
  now <- Date_now ;;
  idb_request (EvPut SBusinesses (business_id business)) ;;;
  (fun w => (Returned tt,
             set_businesses
               (<[business_id business := mkCached business now]>
                  (businesses w)) w)).

Definition deleteCachedBusiness (businessId : string) : M unit :=
  initDB ;;;
  idb_untraced_request ;;;
  (fun w => (Returned tt,
             set_businesses (delete businessId (businesses w)) w)).

Definition clearCache : M unit :=
  initDB ;;;
  promise_all3
    (idb_request (EvClear SBusinesses) ;;;
     (fun w => (Returned tt, set_businesses ∅ w)))
    (idb_request (EvClear SCategories) ;;;
     (fun w => (Returned tt, set_categories ∅ w)))
    (idb_request (EvClear SMetadata) ;;;
     (fun w => (Returned tt, set_metadata ∅ w))) ;;;
  ret tt.

Record CacheSize := mkCacheSize {
  size_businesses : nat;
  size_categories : nat;
  lastSync : option Z
}.

(** [version?.last_sync || null] *)
Definition last_sync_or_null (version : option DataVersion) : option Z :=
  match version with
  | Some v => if Z.eqb (last_sync v) 0 then None else Some (last_sync v)
  | None => None
  end.

Definition getCacheSize : M CacheSize :=
  initDB ;;;
  r <- promise_all3
         (idb_untraced_request ;;;
          (fun w => (Returned (size (businesses w)), w)))
         (idb_untraced_request ;;;
          (fun w => (Returned (size (categories w)), w)))
         getLocalVersion ;;
  ret (mkCacheSize (fst (fst r)) (snd (fst r)) (last_sync_or_null (snd r))).

(** The businesses a cache read hands out for a store. *)
Definition cached_list (m : gmap string CachedBusiness) : list Business :=
  cached <$> (snd <$> map_to_list m).

(** With [keyPath: 'id'] every record sits under its own identifier. *)
Definition keyed_by_id (m : gmap string CachedBusiness) : Prop :=
  forall k c, m !! k = Some c -> business_id (cached c) = k.

End Cache.

(** ** The remote data service: [getDataVersion] *)

Module Remote.

Import Cache.

Record PostgrestError := mkPgError {
  code : string;
  message : string
}.

(** What the count query ([select('*', { count: 'exact', head: true })])
    resolves with. *)
Record CountResponse := mkCountResponse {
  count : option Z;
  countError : option PostgrestError
}.

(** A row of the [select('updated_at')] query. *)
Record Row := mkRow { updated_at : option string }.

(** What the most-recent-timestamp query ([.limit(1).single()]) resolves
    with. *)
Record RowResponse := mkRowResponse {
  data : option Row;
  updateError : option PostgrestError
}.

Definition obind {A B} (o : outcome A) (k : A -> outcome B) : outcome B :=
  match o with
  | Returned a => k a
  | Threw e => Threw e
  end.

Definition otry {A} (body : outcome A) (handler : JsError -> outcome A)
  : outcome A :=
  match body with
  | Returned a => Returned a
  | Threw e => handler e
  end.

Definition throw_api {A} (e : PostgrestError) : outcome A :=
  Threw (ApiError (code e) (message e)).

(** [count || 0] *)
Definition count_or_zero (c : option Z) : Z :=
  match c with
  | Some n => if Z.eqb n 0 then 0 else n
  | None => 0
  end.

(** [data?.updated_at || fallback]: a missing row, a null column and the
    empty string are all falsy. *)
Definition updated_at_or (d : option Row) (fallback : string) : string :=
  match d with
  | Some (mkRow (Some s)) => if String.eqb s "" then fallback else s
  | _ => fallback
  end.

Section GetDataVersion.

(** [Date.prototype.toISOString], applied to the time in milliseconds. *)
Variable toISOString : Z -> string.

(** [getDataVersion]; the two awaited queries are given by the outcome
    they settle with, [now] is the local time. *)
Definition getDataVersion (countQuery : outcome CountResponse)
    (updatedQuery : outcome RowResponse) (now : Z) : outcome DataVersion :=
  otry
    (obind countQuery (fun r1 =>
     match countError r1 with
     | Some countError => throw_api countError
     | None =>
         obind updatedQuery (fun r2 =>
         match updateError r2 with
         | Some updateError =>
             if negb (String.eqb (code updateError) "PGRST116")
             then throw_api updateError
             else Returned (mkVersion (count_or_zero (count r1))
                              (updated_at_or (data r2) (toISOString now)) now)
         | None =>
             Returned (mkVersion (count_or_zero (count r1))
                         (updated_at_or (data r2) (toISOString now)) now)
         end)
     end))
    (fun _ => Returned (mkVersion 0 (toISOString now) now)).

(** The lightweight accessor the application passes to [smartSync]:
    [getDataVersion] with [last_sync] stamped again. *)
Definition fetchRemoteVersion (countQuery : outcome CountResponse)
    (updatedQuery : outcome RowResponse) (now : Z) : outcome DataVersion :=
  obind (getDataVersion countQuery updatedQuery now) (fun version =>
    Returned (mkVersion (business_count version) (last_updated version) now)).

(** The count query fails when awaiting it throws or it resolves with an
    error. *)
Definition count_failed (q : outcome CountResponse) : Prop :=
  match q with
  | Threw _ => True
  | Returned r => countError r <> None
  end.

(** The timestamp query fails when awaiting it throws or it resolves with
    an error other than [PGRST116] (no rows), which the code accepts. *)
Definition updated_failed (q : outcome RowResponse) : Prop :=
  match q with
  | Threw _ => True
  | Returned r =>
      exists e, updateError r = Some e /\ code e <> "PGRST116"
  end.

End GetDataVersion.

Definition iso_of_millis (t : Z) : string :=
  if Z.eqb t 1700000000000 then "2023-11-14T22:13:20.000Z" else "".

(** The timestamp the second query of [getDataVersion] yields, if any. *)
Definition newest_timestamp (q : outcome RowResponse) : option string :=
  match q with
  | Returned r =>
      match data r with
      | Some (mkRow (Some s)) => if String.eqb s "" then None else Some s
      | _ => None
      end
  | Threw _ => None
  end.

(** *** Rows of the businesses table and the two conversions *)

Record DbBusiness := mkDbBusiness {
  db_id : string;
  db_category : string;
  shop_name : string;
  owner_name : string;
  contact_number : string;
  db_address : option string;
  opening_hours : option string;
  db_services : option (list string);
  home_delivery : option bool;
  payment_options : option (list string);
  created_at : option string;
  db_updated_at : option string;
  created_by : option string;
  updated_by : option string
}.

(** [Partial<DbBusiness>]: every column may be absent. *)
Record PartialDbBusiness := mkPartialDb {
  p_id : option string;
  p_category : option string;
  p_shop_name : option string;
  p_owner_name : option string;
  p_contact_number : option string;
  p_address : option string;
  p_opening_hours : option string;
  p_services : option (list string);
  p_home_delivery : option bool;
  p_payment_options : option (list string);
  p_created_at : option string;
  p_updated_at : option string;
  p_created_by : option string;
  p_updated_by : option string
}.

(** [x || fallback] for an optional array (an array is always truthy) and
    for an optional boolean. *)
Definition array_or {A} (x : option (list A)) (fallback : list A) : list A :=
  match x with Some l => l | None => fallback end.

Definition bool_or (x : option bool) (fallback : bool) : bool :=
  match x with Some true => true | _ => fallback end.

Definition dbBusinessToBusiness (db : DbBusiness) : Business :=
  mkBusiness (db_id db) (db_category db) (shop_name db) (owner_name db)
    (contact_number db) (db_address db) (opening_hours db)
    (Some (array_or (db_services db) []))
    (Some (bool_or (home_delivery db) false))
    (Some (array_or (payment_options db) [])).

Definition businessToDbBusiness (business : Business) : PartialDbBusiness :=
  mkPartialDb (Some (business_id business)) (Some (category business))
    (Some (shopName business)) (Some (ownerName business))
    (Some (contactNumber business)) (address business)
    (openingHours business)
    (Some (array_or (services business) []))
    (Some (bool_or (homeDelivery business) false))
    (Some (array_or (paymentOptions business) []))
    None None None None.

(** The row [addBusiness] inserts: an empty [id] is deleted, so that the
    database generates one. *)
Definition addBusiness_row (business : Business) : PartialDbBusiness :=
  let dbBusiness := businessToDbBusiness business in
  match p_id dbBusiness with
  | Some "" | None =>
      mkPartialDb None (p_category dbBusiness) (p_shop_name dbBusiness)
        (p_owner_name dbBusiness) (p_contact_number dbBusiness)
        (p_address dbBusiness) (p_opening_hours dbBusiness)
        (p_services dbBusiness) (p_home_delivery dbBusiness)
        (p_payment_options dbBusiness) (p_created_at dbBusiness)
        (p_updated_at dbBusiness) (p_created_by dbBusiness)
        (p_updated_by dbBusiness)
  | Some _ => dbBusiness
  end.

(** What a write ([insert] or [update] followed by [.select().single()])
    or a list query resolves with. *)
Record RowsResponse (A : Type) := mkRowsResponse {
  rows : option A;
  rowsError : option PostgrestError
}.
Arguments mkRowsResponse {A} rows rowsError.
Arguments rows {A} r.
Arguments rowsError {A} r.

(** Reading a property of [null]. *)
Definition type_error {A} : outcome A := Threw (RemoteError "TypeError").

(** [updateBusiness] and [addBusiness] after their request has settled
    with [q]: [if (error) throw error; return dbBusinessToBusiness(data)]. *)
Definition written_business (q : outcome (RowsResponse DbBusiness))
  : outcome Business :=
  obind q (fun r =>
    match rowsError r with
    | Some error => throw_api error
    | None =>
        match rows r with
        | Some data => Returned (dbBusinessToBusiness data)
        | None => type_error
        end
    end).

Definition fetchBusinesses (q : outcome (RowsResponse (list DbBusiness)))
  : outcome (list Business) :=
  obind q (fun r =>
    match rowsError r with
    | Some error => throw_api error
    | None => Returned (map dbBusinessToBusiness (array_or (rows r) []))
    end).

Definition fetchCategories (q : outcome (RowsResponse (list Category)))
  : outcome (list Category) :=
  obind q (fun r =>
    match rowsError r with
    | Some error => throw_api error
    | None => Returned (array_or (rows r) [])
    end).

(** The heavy accessor the application passes to [smartSync]:
    [Promise.all([fetchCategories(), fetchBusinesses()])]. *)
Definition fetchAllData (qc : outcome (RowsResponse (list Category)))
    (qb : outcome (RowsResponse (list DbBusiness))) : outcome AllData :=
  match fetchCategories qc, fetchBusinesses qb with
  | Returned categories, Returned businesses =>
      Returned (mkAllData businesses categories)
  | Threw e, _ => Threw e
  | _, Threw e => Threw e
  end.

(** A business with the three defaults of the conversions applied. *)
Definition normalised (b : Business) : Business :=
  mkBusiness (business_id b) (category b) (shopName b) (ownerName b)
    (contactNumber b) (address b) (openingHours b)
    (Some (array_or (services b) []))
    (Some (bool_or (homeDelivery b) false))
    (Some (array_or (paymentOptions b) [])).

Definition with_id (i : string) (b : Business) : Business :=
  mkBusiness i (category b) (shopName b) (ownerName b) (contactNumber b)
    (address b) (openingHours b) (services b) (homeDelivery b)
    (paymentOptions b).

(** The stored row [row] carries every column the row [p] sent carries. *)
Definition echoes (p : PartialDbBusiness) (row : DbBusiness) : Prop :=
  (forall i, p_id p = Some i -> db_id row = i) /\
  p_category p = Some (db_category row) /\
  p_shop_name p = Some (shop_name row) /\
  p_owner_name p = Some (owner_name row) /\
  p_contact_number p = Some (contact_number row) /\
  p_address p = db_address row /\
  p_opening_hours p = opening_hours row /\
  p_services p = db_services row /\
  p_home_delivery p = home_delivery row /\
  p_payment_options p = payment_options row.

(** *** Authentication *)

Record User := mkUser { user_id : string; user_email : string }.

Record AdminProfile := mkAdminProfile {
  admin_id : string;
  display_name : string;
  admin_email : string
}.

(** What [auth.signInWithPassword] resolves with. *)
Record PasswordResponse := mkPasswordResponse {
  pw_user : option User;
  pw_error : option string
}.

(** What the [admin_profiles] lookup ([.eq('id', userId).single()])
    resolves with. *)
Record AdminResponse := mkAdminResponse {
  adminProfile : option AdminProfile;
  adminError : option PostgrestError
}.

Inductive AuthCall :=
| SignInWithPassword (email password : string)
| SelectAdminProfile (userId : string)
| AuthSignOut.

(** [adminError || !adminProfile] *)
Definition not_admin (a : AdminResponse) : bool :=
  match adminError a, adminProfile a with
  | None, Some _ => false
  | _, _ => true
  end.

(** [signIn]: its outcome and the requests it made, in order.  [pw] is
    what the password sign-in settles with, [lookup] what the profile
    lookup settles with for a user identifier, [signedOut] what
    [auth.signOut] settles with. *)
Definition signIn (email password : string)
    (pw : outcome PasswordResponse)
    (lookup : string -> outcome AdminResponse)
    (signedOut : outcome unit)
  : outcome (User * AdminProfile) * list AuthCall :=
  let calls := [SignInWithPassword email password] in
  match pw with
  | Threw e => (Threw e, calls)
  | Returned r =>
      match pw_error r with
      | Some error => (Threw (RemoteError error), calls)
      | None =>
          match pw_user r with
          | None => (type_error, calls)
          | Some user =>
              let calls := calls ++ [SelectAdminProfile (user_id user)] in
              match lookup (user_id user) with
              | Threw e => (Threw e, calls)
              | Returned a =>
                  if not_admin a then
                    let calls := calls ++ [AuthSignOut] in
                    match signedOut with
                    | Threw e => (Threw e, calls)
                    | Returned _ =>
                        (Threw (RemoteError
                                  "You are not authorized as an admin"),
                         calls)
                    end
                  else
                    match adminProfile a with
                    | Some profile => (Returned (user, profile), calls)
                    | None => (type_error, calls)
                    end
              end
          end
      end
  end.

(** [isUserAdmin] after its lookup has resolved: [!error && !!data]. *)
Definition isUserAdmin (a : AdminResponse) : bool :=
  match adminError a with
  | None => match adminProfile a with Some _ => true | None => false end
  | Some _ => false
  end.

End Remote.

(** ** The tracking service: event batching and presence pings *)

Module Tracking.

(** The row object handed to a tracking call, kept as its JSON text. *)
Definition Payload := string.

(** An element of [eventQueue]: [{ table, data }]. *)
Record QueuedEvent := mkEvent {
  table : string;
  data : Payload
}.

(** Requests sent to the analytics store. *)
Inductive Request :=
| Insert (into : string) (rows : list Payload)
| Upsert (into : string) (device_id : string) (user_name : option string)
         (is_active : bool) (last_ping : Z) (onConflict : string).

(** How an awaited analytics request settles. *)
Inductive Response :=
| RespOk
| RespError      (* resolves with [{ error }]: logged, execution goes on *)
| RespThrows.    (* the await throws: caught by [safeAnalyticsOperation] *)

(** The three groups [flushEvents] inserts, in program order. *)
Inductive Stage := Interactions | Visits | Searches | Finished.

Definition stage_table (st : Stage) : string :=
  match st with
  | Interactions => "business_interactions"
  | Visits => "visit_logs"
  | Searches => "ai_search_logs"
  | Finished => ""
  end.

(** One execution of [flushEvents] past its queue swap: the events it took
    and the insert it is suspended on ([Finished] once it has returned). *)
Record Flight := mkFlight {
  eventsToSend : list QueuedEvent;
  awaiting : Stage
}.

(** The module-level variables of the tracking service, together with the
    timers pending in the event loop, the flushes started and the requests
    issued so far (oldest first), and the clock. *)
Record State := mkState {
  eventQueue : list QueuedEvent;
  flushTimeout : option nat;
  timers : list (nat * Z);        (* handle, due time *)
  nextHandle : nat;
  flights : list Flight;
  network : list Request;
  lastActivity : Z;
  isTabActive : bool;
  now : Z
}.

Definition FLUSH_INTERVAL : Z := 5000.
Definition MAX_QUEUE_SIZE : nat := 10.
Definition PING_INTERVAL : Z := 20000.
Definition ACTIVE_THRESHOLD : Z := 60000.
Definition MIN_ACTIVITY_GAP : Z := 10000.

(** The state when the module has just been loaded at time [t]. *)
Definition init (t : Z) : State :=
  mkState [] None [] 1 [] [] t true t.

(** *** State updates *)

Definition set_eventQueue (q : list QueuedEvent) (s : State) : State :=
  mkState q (flushTimeout s) (timers s) (nextHandle s) (flights s)
          (network s) (lastActivity s) (isTabActive s) (now s).

Definition set_flushTimeout (h : option nat) (s : State) : State :=
  mkState (eventQueue s) h (timers s) (nextHandle s) (flights s)
          (network s) (lastActivity s) (isTabActive s) (now s).

Definition set_timers (ts : list (nat * Z)) (s : State) : State :=
  mkState (eventQueue s) (flushTimeout s) ts (nextHandle s) (flights s)
          (network s) (lastActivity s) (isTabActive s) (now s).

Definition set_nextHandle (n : nat) (s : State) : State :=
  mkState (eventQueue s) (flushTimeout s) (timers s) n (flights s)
          (network s) (lastActivity s) (isTabActive s) (now s).

Definition set_flights (fs : list Flight) (s : State) : State :=
  mkState (eventQueue s) (flushTimeout s) (timers s) (nextHandle s) fs
          (network s) (lastActivity s) (isTabActive s) (now s).

Definition send (rs : list Request) (s : State) : State :=
  mkState (eventQueue s) (flushTimeout s) (timers s) (nextHandle s)
          (flights s) (network s ++ rs) (lastActivity s) (isTabActive s)
          (now s).

Definition set_lastActivity (t : Z) (s : State) : State :=
  mkState (eventQueue s) (flushTimeout s) (timers s) (nextHandle s)
          (flights s) (network s) t (isTabActive s) (now s).

Definition set_isTabActive (b : bool) (s : State) : State :=
  mkState (eventQueue s) (flushTimeout s) (timers s) (nextHandle s)
          (flights s) (network s) (lastActivity s) b (now s).

Definition set_now (t : Z) (s : State) : State :=
  mkState (eventQueue s) (flushTimeout s) (timers s) (nextHandle s)
          (flights s) (network s) (lastActivity s) (isTabActive s) t.

(** *** Timers of the event loop *)

(** [setTimeout(callback, delay)]: a fresh handle, due [delay] from now.
    The only callback the batcher registers is [flushEvents]. *)
Definition setTimeout (delay : Z) (s : State) : nat * State :=
  (nextHandle s,
   set_nextHandle (S (nextHandle s))
     (set_timers (timers s ++ [(nextHandle s, now s + delay)]) s)).

(** [clearTimeout(h)]: a handle that is not pending is ignored. *)
Definition clearTimeout (h : nat) (s : State) : State :=
  set_timers (List.filter (fun t => negb (Nat.eqb (fst t) h)) (timers s)) s.

(** *** Grouping and sending a batch *)

Definition group (t : string) (evs : list QueuedEvent) : list QueuedEvent :=
  List.filter (fun e => String.eqb (table e) t) evs.

Definition non_empty {A} (l : list A) : bool :=
  Nat.ltb 0 (length l).

Definition insert_of (st : Stage) (evs : list QueuedEvent) : Request :=
  Insert (stage_table st) (map data (group (stage_table st) evs)).

Section Analytics.

(** analyticsClient.ts: [isAnalyticsEnabled] is fixed when the module is
    loaded, and the client exists exactly when it is true. *)
Variable isAnalyticsEnabled : bool.

Definition analyticsClient : option unit :=
  if isAnalyticsEnabled then Some tt else None.

Definition has_client : bool :=
  match analyticsClient with Some _ => true | None => false end.

(** The body of the operation [flushEvents] hands to
    [safeAnalyticsOperation], run from the [if] of stage [st] up to its
    next [await] (or to its end): the stage it suspends on and the request
    it issues there. *)
Definition resume_searches (evs : list QueuedEvent) : Stage * list Request :=
  if non_empty (group "ai_search_logs" evs) && has_client
  then (Searches, [insert_of Searches evs])
  else (Finished, []).

Definition resume_visits (evs : list QueuedEvent) : Stage * list Request :=
  if non_empty (group "visit_logs" evs) && has_client
  then (Visits, [insert_of Visits evs])
  else resume_searches evs.

Definition resume_interactions (evs : list QueuedEvent)
  : Stage * list Request :=
  if non_empty (group "business_interactions" evs) && has_client
  then (Interactions, [insert_of Interactions evs])
  else resume_visits evs.

(** What follows the insert of stage [st] once it has settled without
    throwing. *)
Definition resume_after (st : Stage) (evs : list QueuedEvent)
  : Stage * list Request :=
  match st with
  | Interactions => resume_visits evs
  | Visits => resume_searches evs
  | Searches | Finished => (Finished, [])
  end.

(** [safeAnalyticsOperation(operation, undefined)] as called by
    [flushEvents], up to the first [await] inside [operation]. *)
Definition safeAnalyticsOperation_flush (evs : list QueuedEvent)
  : Stage * list Request :=
  if negb has_client || negb isAnalyticsEnabled
  then (Finished, [])
  else resume_interactions evs.

(** [flushEvents], up to its first suspension: the queue is copied and
    swapped for an empty one before anything is awaited. *)
Definition flushEvents (s : State) : State :=
  if Nat.eqb (length (eventQueue s)) 0 || negb isAnalyticsEnabled then s
  else
    let eventsToSend := eventQueue s in
    let s := set_eventQueue [] s in
    let (st, reqs) := safeAnalyticsOperation_flush eventsToSend in
    send reqs (set_flights (flights s ++ [mkFlight eventsToSend st]) s).

Definition scheduleFlush (s : State) : State :=
  let s := match flushTimeout s with
           | Some h => clearTimeout h s
           | None => s
           end in
  let (h, s) := setTimeout FLUSH_INTERVAL s in
  set_flushTimeout (Some h) s.

Definition queueEvent (table : string) (data : Payload) (s : State) : State :=
  if negb isAnalyticsEnabled then s
  else
    let s := set_eventQueue (eventQueue s ++ [mkEvent table data]) s in
    if Nat.leb MAX_QUEUE_SIZE (length (eventQueue s))
    then flushEvents s
    else scheduleFlush s.

(** The pending insert of flight [i] settles with [r]; the flight goes on
    to its next group, or ends when the await threw. *)
Definition settle (i : nat) (r : Response) (s : State) : State :=
  match flights s !! i with
  | None => s
  | Some f =>
      match awaiting f with
      | Finished => s
      | st =>
          let (st', reqs) :=
            match r with
            | RespThrows => (Finished, [])
            | _ => resume_after st (eventsToSend f)
            end in
          send reqs
            (set_flights (<[i := mkFlight (eventsToSend f) st']> (flights s)) s)
      end
  end.

(** A pending timer that is due fires: it leaves the event loop and its
    callback, [flushEvents], runs. *)
Definition fire (h : nat) (s : State) : State :=
  match List.find (fun t => Nat.eqb (fst t) h) (timers s) with
  | Some (_, due) =>
      if Z.leb due (now s) then flushEvents (clearTimeout h s) else s
  | None => s
  end.

(** *** Presence *)

(** The listener of [mousedown], [keydown], [scroll] and [touchstart]. *)
Definition onActivity (s : State) : State := set_lastActivity (now s) s.

(** The listener of [visibilitychange]; [hidden] is [document.hidden]. *)
Definition onVisibilityChange (hidden : bool) (s : State) : State :=
  let s := set_isTabActive (negb hidden) s in
  if isTabActive s then set_lastActivity (now s) s else s.

Definition ping_of (deviceId : string) (userName : option string)
    (s : State) : Request :=
  Upsert "live_users" deviceId userName true (now s) "device_id".

Definition sendPing (deviceId : string) (userName : option string)
    (s : State) : State :=
  if negb (isTabActive s) || Z.ltb MIN_ACTIVITY_GAP (now s - lastActivity s)
     || negb isAnalyticsEnabled
  then s
  else
    if negb has_client || negb isAnalyticsEnabled then s
    else
      match analyticsClient with
      | None => s
      | Some _ => send [ping_of deviceId userName s] s
      end.

(** *** Interleavings *)

Inductive Action :=
| Enqueue (table : string) (data : Payload)   (* a tracking call *)
| TimerFires (h : nat)
| BeforeUnload                                (* the unload listener *)
| Settle (i : nat) (r : Response)
| Ping (deviceId : string) (userName : option string)
| Activity
| VisibilityChange (hidden : bool)
| Elapse (dt : nat).                          (* time passes *)

Definition step (s : State) (a : Action) : State :=
  match a with
  | Enqueue t d => queueEvent t d s
  | TimerFires h => fire h s
  | BeforeUnload => flushEvents s
  | Settle i r => settle i r s
  | Ping d u => sendPing d u s
  | Activity => onActivity s
  | VisibilityChange hidden => onVisibilityChange hidden s
  | Elapse dt => set_now (now s + Z.of_nat dt) s
  end.

Definition run (acts : list Action) (s : State) : State :=
  fold_left step acts s.

End Analytics.

(** The events the tracking calls of a run hand to [queueEvent]. *)
Fixpoint enqueued (acts : list Action) : list QueuedEvent :=
  match acts with
  | [] => []
  | Enqueue t d :: acts => mkEvent t d :: enqueued acts
  | _ :: acts => enqueued acts
  end.

(** The batches of all flushes started so far, oldest first. *)
Definition batches (s : State) : list (list QueuedEvent) :=
  eventsToSend <$> flights s.

(** Every insert sent so far carries the rows one batch holds for one
    table. *)
Definition inserts_from_batches (s : State) : Prop :=
  forall t rows,
    Insert t rows ∈ network s ->
    exists b, b ∈ batches s /\ rows = map data (group t b).

(** Requests that are inserts of groups of [evs]. *)
Definition inserts_of (evs : list QueuedEvent) (reqs : list Request) : Prop :=
  forall r, r ∈ reqs -> exists st, r = insert_of st evs.

(** What one step adds to the network log comes from a batch that exists
    after the step. *)
Definition sends_from_batches (s s' : State) : Prop :=
  exists reqs,
    network s' = network s ++ reqs /\
    forall t rows, Insert t rows ∈ reqs ->
      exists b, b ∈ batches s' /\ rows = map data (group t b).

(** Nothing queued, scheduled, started or sent. *)
Definition idle (s : State) : Prop :=
  eventQueue s = [] /\ flushTimeout s = None /\ timers s = [] /\
  flights s = [] /\ network s = [].

(** Runs in which no timer fires and the page is not unloaded. *)
Definition quiet (a : Action) : Prop :=
  match a with
  | TimerFires _ | BeforeUnload => False
  | _ => True
  end.

(** No timer before the first event is queued; afterwards exactly the
    timer [flushTimeout] refers to is pending, under a handle already
    handed out. *)
Definition timer_state (s : State) (queued : list QueuedEvent) : Prop :=
  match queued with
  | [] => timers s = [] /\ flushTimeout s = None
  | _ :: _ =>
      exists h due,
        timers s = [(h, due)] /\ flushTimeout s = Some h /\
        (h < nextHandle s)%nat
  end.

Definition visit : Action := Enqueue "visit_logs" "{}".

(** At most one flush timer is pending, it is the one [flushTimeout]
    refers to and it is due within [FLUSH_INTERVAL]; [flushTimeout] holds
    a handle already handed out. *)
Definition timers_ok (s : State) : Prop :=
  (length (timers s) <= 1)%nat /\
  (forall h due, (h, due) ∈ timers s ->
     flushTimeout s = Some h /\ due <= now s + FLUSH_INTERVAL) /\
  (forall h, flushTimeout s = Some h -> (h < nextHandle s)%nat).

(** The queue stays below the size threshold and every batch swapped out
    holds between one and [MAX_QUEUE_SIZE] events. *)
Definition bounded (s : State) : Prop :=
  (length (eventQueue s) < MAX_QUEUE_SIZE)%nat /\
  forall b, b ∈ batches s -> (1 <= length b <= MAX_QUEUE_SIZE)%nat.

(** The inserts a flush of [evs] makes when none of them throws: one per
    table with events, in program order. *)
Definition inserts_of_batch (evs : list QueuedEvent) : list Request :=
  flat_map
    (fun st => if non_empty (group (stage_table st) evs)
               then [insert_of st evs] else [])
    [Interactions; Visits; Searches].

(** *** What the flushes have sent *)

Definition is_insert (r : Request) : bool :=
  match r with
  | Insert _ _ => true
  | Upsert _ _ _ _ _ _ => false
  end.

(** The batch a flush takes out of the queue [q]: none when the queue is
    empty, since [flushEvents] returns at once then. *)
Definition swapped (q : list QueuedEvent) : list (list QueuedEvent) :=
  match q with
  | [] => []
  | _ :: _ => [q]
  end.

Definition stages_upto (st : Stage) : list Stage :=
  match st with
  | Interactions => [Interactions]
  | Visits => [Interactions; Visits]
  | Searches | Finished => [Interactions; Visits; Searches]
  end.

(** The inserts a flush of [evs] has made once it has reached the insert
    of stage [st]: one per table with events, in program order. *)
Definition inserts_upto (st : Stage) (evs : list QueuedEvent)
  : list Request :=
  flat_map
    (fun st => if non_empty (group (stage_table st) evs)
               then [insert_of st evs] else [])
    (stages_upto st).

(** [reqs] are the inserts made for the flush [f]: while it is suspended,
    those up to the insert it awaits; once it has ended, all the inserts
    of its batch when no await has thrown ([complete]), and an initial
    part of them otherwise. *)
Definition issued_by (complete : bool) (f : Flight) (reqs : list Request)
  : Prop :=
  match awaiting f with
  | Finished =>
      if complete then reqs = inserts_of_batch (eventsToSend f)
      else exists rest, inserts_of_batch (eventsToSend f) = reqs ++ rest
  | st =>
      non_empty (group (stage_table st) (eventsToSend f)) = true /\
      reqs = inserts_upto st (eventsToSend f)
  end.

(** An awaited insert throws. *)
Definition throws (a : Action) : bool :=
  match a with
  | Settle _ RespThrows => true
  | _ => false
  end.

Definition no_throw (acts : list Action) : bool :=
  forallb (fun a => negb (throws a)) acts.

(** The insert requests in the network log are the inserts made for the
    flushes started so far, each flush with its own. *)
Definition inserts_by_flight (complete : bool) (s : State) : Prop :=
  exists sent,
    Forall2 (issued_by complete) (flights s) sent /\
    List.filter is_insert (network s) ≡ₚ concat sent.

(** *** The history a ping depends on *)

(** The clock and the two variables [sendPing] consults are the same in
    [s] and [s']. *)
Definition same_presence (s s' : State) : Prop :=
  now s' = now s /\ isTabActive s' = isTabActive s /\
  lastActivity s' = lastActivity s.

(** The clock after the actions [acts], started at [t]. *)
Fixpoint time_after (t : Z) (acts : list Action) : Z :=
  match acts with
  | [] => t
  | Elapse dt :: acts => time_after (t + Z.of_nat dt) acts
  | _ :: acts => time_after t acts
  end.

(** What the page takes for the visibility of the tab: visible when the
    module is loaded ([v]), then what the last [visibilitychange] event
    reported. *)
Fixpoint tracked_visible (v : bool) (acts : list Action) : bool :=
  match acts with
  | [] => v
  | VisibilityChange hidden :: acts => tracked_visible (negb hidden) acts
  | _ :: acts => tracked_visible v acts
  end.

(** The time of the latest of: the load of the module ([last] at the
    start), an interaction event, and a return to the tab. *)
Fixpoint last_stamp (t last : Z) (acts : list Action) : Z :=
  match acts with
  | [] => last
  | Elapse dt :: acts => last_stamp (t + Z.of_nat dt) last acts
  | Activity :: acts => last_stamp t t acts
  | VisibilityChange false :: acts => last_stamp t t acts
  | _ :: acts => last_stamp t last acts
  end.

(** The time of the latest interaction event ([mousedown], [keydown],
    [scroll], [touchstart]), if there was one. *)
Fixpoint last_interaction (t : Z) (last : option Z) (acts : list Action)
  : option Z :=
  match acts with
  | [] => last
  | Elapse dt :: acts => last_interaction (t + Z.of_nat dt) last acts
  | Activity :: acts => last_interaction t (Some t) acts
  | _ :: acts => last_interaction t last acts
  end.

End Tracking.

(** ** Device identifier and user name (localStorage) *)

Module Identity.

Definition DEVICE_ID_KEY : string := "jawala_device_id".
Definition USER_NAME_KEY : string := "jawala_user_name".

(** [localStorage.getItem] and [localStorage.setItem] on the storage of
    the origin. *)
Definition getItem (k : string) (storage : gmap string string)
  : option string := storage !! k.

Definition setItem (k v : string) (storage : gmap string string)
  : gmap string string := <[k := v]> storage.

(** Truthiness of what [getItem] returns: [null] and the empty string are
    falsy. *)
Definition truthy (v : option string) : bool :=
  match v with
  | Some s => negb (String.eqb s "")
  | None => false
  end.

Section DeviceId.

(** The decimal rendering of [Date.now()] inside the template string. *)
Variable render : Z -> string.

(** [getDeviceId]; [now] is [Date.now()] and [rnd] the nine characters
    drawn from [Math.random().toString(36)], both used only when an
    identifier has to be generated. *)
Definition getDeviceId (now : Z) (rnd : string)
    (storage : gmap string string) : string * gmap string string :=
  let deviceId := getItem DEVICE_ID_KEY storage in
  if truthy deviceId
  then (match deviceId with Some d => d | None => "" end, storage)
  else
    let deviceId := ("device_" ++ render now ++ "_" ++ rnd)%string in
    (deviceId, setItem DEVICE_ID_KEY deviceId storage).

End DeviceId.

Definition getUserName (storage : gmap string string) : option string :=
  getItem USER_NAME_KEY storage.

Definition setUserName (name : string) (storage : gmap string string)
  : gmap string string := setItem USER_NAME_KEY name storage.

Definition hasUserName (storage : gmap string string) : bool :=
  truthy (getUserName storage).

End Identity.

(** ** Display helpers *)

Module Display.

(** [formatPhoneNumber]; [slice(0, 5)] and [slice(5)] of a string of
    length 10. *)
Definition formatPhoneNumber (phoneNumber : string) : string :=
  if Nat.eqb (String.length phoneNumber) 10
  then ("+91 " ++ String.substring 0 5 phoneNumber ++ " " ++
        String.substring 5 (String.length phoneNumber - 5) phoneNumber)%string
  else phoneNumber.

End Display.

(** ** The service worker's cache cleanup (sw.js) *)

Module ServiceWorker.

Section Version.

Variable CACHE_VERSION : string.

Definition CACHE_NAME : string :=
  ("jawala-business-v" ++ CACHE_VERSION)%string.
Definition RUNTIME_CACHE : string :=
  ("jawala-runtime-v" ++ CACHE_VERSION)%string.

(** The filter of the [activate] handler: the caches to delete. *)
Definition outdated (name : string) : bool :=
  String.prefix "jawala-" name &&
  negb (String.eqb name CACHE_NAME) &&
  negb (String.eqb name RUNTIME_CACHE).

(** The cache names left once the deletions of [activate] are done;
    [cacheNames] is what [caches.keys()] resolved with. *)
Definition activate (cacheNames : list string) : list string :=
  List.filter (fun name => negb (outdated name)) cacheNames.

(** The cache names left after a [CLEAR_CACHE] message. *)
Definition clear_cache_message (cacheNames : list string) : list string :=
  List.filter (fun name => negb (String.prefix "jawala-" name)) cacheNames.

End Version.

End ServiceWorker.

(** * Part II: properties of the cache service *)

Module CacheFacts.

Import Cache.
Local Open Scope js_scope.

Ltac wsimpl :=
  cbn [dbInstance businesses categories metadata clock faults ops trace
       set_dbInstance set_businesses set_categories set_metadata
       record count_request fst snd].

Section Healthy.

Lemma idb_request_ok e w :
  healthy w -> idb_request e w = (Returned tt, count_request (record e w)).
Proof. intros H. unfold idb_request. by rewrite H. Qed.

Lemma healthy_opened w : healthy w -> healthy (opened w).
Proof. unfold opened, healthy. destruct (dbInstance w); auto. Qed.

Lemma dbInstance_opened w : dbInstance (opened w) = true.
Proof. unfold opened. destruct (dbInstance w) eqn:E; auto. Qed.

Lemma opened_stores w :
  businesses (opened w) = businesses w /\
  categories (opened w) = categories w /\
  metadata (opened w) = metadata w /\
  clock (opened w) = clock w.
Proof. unfold opened. destruct (dbInstance w); auto. Qed.

Lemma initDB_ok w : healthy w -> initDB w = (Returned tt, opened w).
Proof.
  intros H. unfold initDB, opened. destruct (dbInstance w); [done |].
  unfold bind. by rewrite idb_request_ok.
Qed.

Lemma getMetadata_ok k w :
  healthy w ->
  getMetadata k w =
  (Returned (value <$> metadata w !! k),
   count_request (record (EvGet SMetadata k) (opened w))).
Proof.
  intros H. unfold getMetadata, bind.
  rewrite initDB_ok by done.
  rewrite idb_request_ok by (by apply healthy_opened).
  wsimpl. by destruct (opened_stores w) as (_ & _ & -> & _).
Qed.

Lemma setMetadata_ok k v w :
  healthy w ->
  setMetadata k v w =
  (Returned tt,
   set_metadata (<[k := mkMeta k v (clock w)]> (metadata w))
     (count_request (record (EvPut SMetadata k) (opened w)))).
Proof.
  intros H. unfold setMetadata, bind, Date_now.
  rewrite initDB_ok by done.
  rewrite idb_request_ok by (by apply healthy_opened).
  wsimpl. by destruct (opened_stores w) as (_ & _ & -> & ->).
Qed.

Lemma getCachedBusinesses_ok w :
  healthy w ->
  getCachedBusinesses w =
  (Returned (cached <$> (snd <$> map_to_list (businesses w))),
   count_request (record (EvGetAll SBusinesses) (opened w))).
Proof.
  intros H. unfold getCachedBusinesses, bind.
  rewrite initDB_ok by done.
  rewrite idb_request_ok by (by apply healthy_opened).
  wsimpl. by destruct (opened_stores w) as (-> & _).
Qed.

Lemma getCachedCategories_ok w :
  healthy w ->
  getCachedCategories w =
  (Returned (snd <$> map_to_list (categories w)),
   count_request (record (EvGetAll SCategories) (opened w))).
Proof.
  intros H. unfold getCachedCategories, bind.
  rewrite initDB_ok by done.
  rewrite idb_request_ok by (by apply healthy_opened).
  wsimpl. by destruct (opened_stores w) as (_ & -> & _).
Qed.

(** The put loop of [setCachedBusinesses]: one request per record, each
    record stored under its identifier, later records overwriting earlier
    ones with the same identifier. *)
Lemma put_businesses_ok now bs w :
  healthy w ->
  for_of bs (fun b =>
    idb_request (EvPut SBusinesses (business_id b)) ;;;
    (fun w => (Returned tt,
               set_businesses
                 (<[business_id b := mkCached b now]> (businesses w)) w))) w =
  (Returned tt,
   mkWorld (dbInstance w)
     (foldl (fun m b => <[business_id b := mkCached b now]> m) (businesses w) bs)
     (categories w) (metadata w) (clock w) (faults w)
     (ops w + length bs)%nat
     (trace w ++ put_events SBusinesses (business_id <$> bs))).
Proof.
  revert w. induction bs as [| b bs IH]; intros w H.
  - cbn [for_of foldl length fmap list_fmap put_events map]. unfold ret.
    rewrite Nat.add_0_r, app_nil_r. by destruct w.
  - cbn [for_of]. unfold bind at 1. unfold bind at 1.
    rewrite idb_request_ok by done. rewrite IH by done. wsimpl.
    cbn [foldl length fmap list_fmap put_events map].
    rewrite <- app_assoc. do 2 f_equal. lia.
Qed.

Lemma put_categories_ok cs w :
  healthy w ->
  for_of cs (fun c =>
    idb_request (EvPut SCategories (category_id c)) ;;;
    (fun w => (Returned tt,
               set_categories (<[category_id c := c]> (categories w)) w))) w =
  (Returned tt,
   mkWorld (dbInstance w) (businesses w)
     (foldl (fun m c => <[category_id c := c]> m) (categories w) cs)
     (metadata w) (clock w) (faults w)
     (ops w + length cs)%nat
     (trace w ++ put_events SCategories (category_id <$> cs))).
Proof.
  revert w. induction cs as [| c cs IH]; intros w H.
  - cbn [for_of foldl length fmap list_fmap put_events map]. unfold ret.
    rewrite Nat.add_0_r, app_nil_r. by destruct w.
  - cbn [for_of]. unfold bind at 1. unfold bind at 1.
    rewrite idb_request_ok by done. rewrite IH by done. wsimpl.
    cbn [foldl length fmap list_fmap put_events map].
    rewrite <- app_assoc. do 2 f_equal. lia.
Qed.

Lemma setCachedBusinesses_ok bs w :
  healthy w ->
  setCachedBusinesses bs w = (Returned tt, replaced_businesses bs (opened w)).
Proof.
  intros H. pose proof (healthy_opened w H) as Ho.
  unfold setCachedBusinesses. unfold bind at 1. rewrite initDB_ok by done.
  unfold transaction_businesses.
  unfold bind at 1. rewrite idb_request_ok by done.
  unfold bind at 1. unfold bind at 1. unfold Date_now at 1.
  unfold bind at 1. rewrite put_businesses_ok by done.
  rewrite idb_request_ok by done.
  unfold replaced_businesses. wsimpl.
  f_equal. unfold count_request, record. wsimpl. f_equal.
  rewrite <- !app_assoc. by cbn [app].
Qed.

Lemma setCachedCategories_ok cs w :
  healthy w ->
  setCachedCategories cs w = (Returned tt, replaced_categories cs (opened w)).
Proof.
  intros H. pose proof (healthy_opened w H) as Ho.
  unfold setCachedCategories. unfold bind at 1. rewrite initDB_ok by done.
  unfold transaction_categories.
  unfold bind at 1. rewrite idb_request_ok by done.
  unfold bind at 1. unfold bind at 1.
  rewrite put_categories_ok by done.
  rewrite idb_request_ok by done.
  unfold replaced_categories. wsimpl.
  f_equal. unfold count_request, record. wsimpl. f_equal.
  rewrite <- !app_assoc. by cbn [app].
Qed.

End Healthy.

(** ** Contents of a collection after the put loop *)

Section PutLoop.

Variable now : Z.

Let put (m : gmap string CachedBusiness) (b : Business) :=
  <[business_id b := mkCached b now]> m.

Lemma put_loop_lookup (bs : list Business) (m : gmap string CachedBusiness) k c :
  foldl put m bs !! k = Some c ->
  (exists b, b ∈ bs /\ k = business_id b /\ c = mkCached b now) \/
  m !! k = Some c.
Proof.
  revert m. induction bs as [| b bs IH]; intros m Hk; cbn [foldl] in Hk.
  - by right.
  - destruct (IH _ Hk) as [(b' & Hin & -> & ->) | Hm].
    + left. exists b'. split; [by apply list_elem_of_further | done].
    + unfold put in Hm. rewrite lookup_insert in Hm. case_decide.
      * left. exists b. split; [apply list_elem_of_here |].
        split; congruence.
      * by right.
Qed.

Lemma put_loop_to_list (bs : list Business) (m : gmap string CachedBusiness) :
  NoDup (business_id <$> bs) ->
  (forall b, b ∈ bs -> m !! business_id b = None) ->
  map_to_list (foldl put m bs) ≡ₚ (stamp now <$> bs) ++ map_to_list m.
Proof.
  revert m. induction bs as [| b bs IH]; intros m Hnd Hfresh.
  - done.
  - cbn [foldl fmap list_fmap] in *. apply NoDup_cons in Hnd as [Hb Hnd].
    rewrite IH; [| done |].
    + unfold put at 1. rewrite map_to_list_insert.
      * symmetry. exact (Permutation_middle _ _ _).
      * apply Hfresh, list_elem_of_here.
    + intros b' Hb'. unfold put. rewrite lookup_insert_ne.
      * apply Hfresh. by apply list_elem_of_further.
      * intros E. apply Hb. rewrite E. apply list_elem_of_fmap. eauto.
Qed.

Lemma unstamp (bs : list Business) : cached <$> (snd <$> (stamp now <$> bs)) = bs.
Proof.
  induction bs as [| b bs IH]; [done |].
  cbn [fmap list_fmap] in *. by rewrite IH.
Qed.

End PutLoop.

Lemma checkSyncNeeded_run remoteVersion w :
  checkSyncNeeded remoteVersion w =
  match getLocalVersion w with
  | (Returned lv, w') => (Returned (decide_sync lv remoteVersion), w')
  | (Threw e, w') => (Threw e, w')
  end.
Proof.
  unfold checkSyncNeeded, bind.
  destruct (getLocalVersion w) as [[lv | e] w']; [| done].
  destruct lv as [lv |]; [| done]. unfold decide_sync, ret.
  destruct (negb (Z.eqb _ _)); [done |].
  by destruct (negb (String.eqb _ _)).
Qed.

Lemma decide_sync_stale lv rv : stale lv rv -> decide_sync lv rv = full_sync.
Proof.
  destruct lv as [lv |]; [| done]. cbn [stale decide_sync].
  destruct (Z.eqb_spec (business_count lv) (business_count rv)); [| done].
  destruct (String.eqb_spec (last_updated lv) (last_updated rv)); [| done].
  intros [? | ?]; done.
Qed.

Lemma decide_sync_fresh lv rv :
  business_count lv = business_count rv ->
  last_updated lv = last_updated rv ->
  decide_sync (Some lv) rv = no_change.
Proof.
  cbn [decide_sync]. intros -> ->.
  by rewrite Z.eqb_refl, String.eqb_refl.
Qed.

Lemma decide_sync_two_valued lv rv : decide_sync lv rv <> incremental_sync.
Proof.
  destruct lv as [lv |]; [| done]. cbn [decide_sync].
  destruct (negb (Z.eqb _ _)); [done |].
  by destruct (negb (String.eqb _ _)).
Qed.

Lemma occurrences_app e l1 l2 :
  occurrences e (l1 ++ l2) = (occurrences e l1 + occurrences e l2)%nat.
Proof. apply count_occ_app. Qed.

Lemma occurrences_cons e x l :
  occurrences e (x :: l) =
  ((if decide (x = e) then 1 else 0) + occurrences e l)%nat.
Proof.
  unfold occurrences. cbn [count_occ].
  destruct (Event_eq_dec x e); by case_decide.
Qed.

Lemma occurrences_puts e s ks :
  (forall k, e <> EvPut s k) -> occurrences e (put_events s ks) = 0%nat.
Proof.
  intros Hne. induction ks as [| k ks IH]; [done |].
  cbn [put_events map]. rewrite occurrences_cons.
  case_decide as E; [by destruct (Hne k) | exact IH].
Qed.

(** ** Replace-all of the businesses collection, then get-all *)

(** C5. For every list of business records with pairwise-distinct
    identifiers and any prior contents of the store (requests not being
    rejected), [setCachedBusinesses] followed immediately by
    [getCachedBusinesses] returns the records passed in, up to order and
    with [_synced_at] stripped; every record the collection holds after
    the call is a stamped copy of a record passed in, so no earlier record
    survives. *)
Theorem setCachedBusinesses_then_getCachedBusinesses
    (bs : list Business) (w : World) :
  healthy w ->
  NoDup (business_id <$> bs) ->
  exists w1 w2 out,
    setCachedBusinesses bs w = (Returned tt, w1) /\
    getCachedBusinesses w1 = (Returned out, w2) /\
    out ≡ₚ bs /\
    (forall k c, businesses w1 !! k = Some c ->
       exists b, b ∈ bs /\ k = business_id b /\ c = mkCached b (clock w)) /\
    (forall k, k ∉ business_id <$> bs -> businesses w1 !! k = None).
Proof.
  intros H Hnd.
  assert (Hh : healthy (replaced_businesses bs (opened w))).
  { intros n. cbn [replaced_businesses faults]. by apply healthy_opened. }
  assert (Hsrc : forall k c,
    businesses (replaced_businesses bs (opened w)) !! k = Some c ->
    exists b, b ∈ bs /\ k = business_id b /\ c = mkCached b (clock w)).
  { intros k c Hk. cbn [replaced_businesses businesses] in Hk.
    destruct (opened_stores w) as (_ & _ & _ & Hck). rewrite Hck in Hk.
    apply put_loop_lookup in Hk as [Hb | Hk]; [done |].
    by rewrite lookup_empty in Hk. }
  eexists _, _, _. split; [by apply setCachedBusinesses_ok |].
  split; [by apply getCachedBusinesses_ok |].
  split; [| split; [exact Hsrc |]].
  - cbn [replaced_businesses businesses].
    rewrite put_loop_to_list; [| done | intros; apply lookup_empty].
    by rewrite map_to_list_empty, app_nil_r, unstamp.
  - intros k Hk.
    destruct (businesses (replaced_businesses bs (opened w)) !! k) as [c |] eqn:E;
      [| done].
    destruct (Hsrc _ _ E) as (b & Hin & -> & _).
    exfalso. apply Hk, list_elem_of_fmap. eauto.
Qed.

(** ** [smartSync] *)

Ltac wcompute :=
  cbn [opened replaced_businesses replaced_categories
       dbInstance businesses categories metadata clock faults ops trace
       set_dbInstance set_businesses set_categories set_metadata
       record count_request fst snd].

(** C1. When the remote descriptor differs from the stored local one in
    record count or in [last_updated] (or no local descriptor is stored),
    and neither accessor nor any store request fails, [smartSync] calls
    the full-data accessor once, replaces each of the two collections
    once, persists a descriptor with the remote's count and timestamp and
    [last_sync] the local current time, and returns the fetched data with
    action [full_sync] and [fromCache = false]. *)
Theorem smartSync_stale_full_sync
    (remote : DataVersion) (data : AllData) (w : World) :
  healthy w ->
  stale (local_version w) remote ->
  exists w' evs,
    smartSync (Returned remote) (Returned data) w =
      (Returned (mkSyncResult full_sync (data_businesses data)
                              (data_categories data) false), w') /\
    trace w' = trace w ++ evs /\
    occurrences (EvCall FetchAllData) evs = 1%nat /\
    occurrences (EvTxBegin SBusinesses) evs = 1%nat /\
    occurrences (EvClear SBusinesses) evs = 1%nat /\
    occurrences (EvTxDone SBusinesses) evs = 1%nat /\
    occurrences (EvTxBegin SCategories) evs = 1%nat /\
    occurrences (EvClear SCategories) evs = 1%nat /\
    occurrences (EvTxDone SCategories) evs = 1%nat /\
    businesses w' =
      foldl (fun m b => <[business_id b := mkCached b (clock w)]> m) ∅
            (data_businesses data) /\
    categories w' =
      foldl (fun m c => <[category_id c := c]> m) ∅ (data_categories data) /\
    local_version w' =
      Some (mkVersion (business_count remote) (last_updated remote) (clock w)).
Proof.
  intros H Hstale.
  unfold smartSync, try_catch. unfold bind at 1, call at 1.
  unfold bind at 1. rewrite checkSyncNeeded_run. unfold getLocalVersion.
  rewrite getMetadata_ok by (intros n; apply H).
  replace (value <$> metadata (record (EvCall FetchRemoteVersion) w)
             !! "data_version") with (local_version w) by done.
  rewrite (decide_sync_stale _ _ Hstale).
  unfold bind at 1, call at 1. unfold bind at 1, Date_now at 1.
  unfold bind at 1, promise_all3.
  destruct w as [db bsm csm md ck fl n tr].
  destruct db.
  all: rewrite setCachedBusinesses_ok by (intros k; exact (H k)).
  all: rewrite setCachedCategories_ok by (intros k; exact (H k)).
  all: unfold setLocalVersion.
  all: rewrite setMetadata_ok by (intros k; exact (H k)).
  all: unfold ret.
  all: eexists _, _; split; [reflexivity |].
  all: split; [wcompute; rewrite <- !app_assoc; cbn [app]; reflexivity |].
  all: repeat rewrite ?occurrences_app, ?occurrences_cons.
  all: rewrite !occurrences_puts by done.
  all: do 7 (split; [vm_compute; reflexivity |]).
  all: split; [reflexivity |]; split; [reflexivity |].
  all: unfold local_version; wcompute.
  all: by rewrite lookup_insert_eq.
Qed.

(** ** Computations that only read *)

Lemma only_read_refl w : only_read w w.
Proof.
  repeat split. exists []. by rewrite app_nil_r.
Qed.

Lemma only_read_trans w1 w2 w3 :
  only_read w1 w2 -> only_read w2 w3 -> only_read w1 w3.
Proof.
  intros (Hb & Hc & Hm & Hk & Hf & evs & Ht & He)
         (Hb' & Hc' & Hm' & Hk' & Hf' & evs' & Ht' & He').
  repeat split; try congruence.
  exists (evs ++ evs'). split.
  - by rewrite Ht', Ht, app_assoc.
  - rewrite forallb_app, He, He'. reflexivity.
Qed.

Lemma only_read_record e w : is_read e = true -> only_read w (record e w).
Proof.
  intros He. repeat split. exists [e]. split; [done |].
  cbn [forallb]. by rewrite He.
Qed.

Lemma read_only_ret {A} (a : A) : read_only (ret a).
Proof. intros w. apply only_read_refl. Qed.

Lemma read_only_bind {A B} (m : M A) (k : A -> M B) :
  read_only m -> (forall a, read_only (k a)) -> read_only (bind m k).
Proof.
  intros Hm Hk w. unfold bind. specialize (Hm w).
  destruct (m w) as [[a | e] w1]; cbn [snd] in *; [| done].
  eapply only_read_trans; [exact Hm | apply Hk].
Qed.

Lemma read_only_promise_all2 {A B} (a : M A) (b : M B) :
  read_only a -> read_only b -> read_only (promise_all2 a b).
Proof.
  intros Ha Hb w. unfold promise_all2. specialize (Ha w).
  destruct (a w) as [ra w1]. specialize (Hb w1).
  destruct (b w1) as [rb w2]. cbn [snd] in *.
  assert (only_read w w2) by (eapply only_read_trans; eauto).
  destruct ra, rb; done.
Qed.

Lemma read_only_idb_request e : is_read e = true -> read_only (idb_request e).
Proof.
  intros He w. unfold idb_request.
  assert (only_read w (count_request (record e w))).
  { destruct (only_read_record e w He) as (? & ? & ? & ? & ? & ?).
    by repeat split. }
  by destruct (faults w (ops w)).
Qed.

Lemma read_only_look {A} (f : World -> A) :
  read_only (fun w => (Returned (f w), w)).
Proof. intros w. apply only_read_refl. Qed.

Lemma read_only_initDB : read_only initDB.
Proof.
  intros w. unfold initDB. destruct (dbInstance w); [apply only_read_refl |].
  revert w. apply read_only_bind; [by apply read_only_idb_request |].
  intros _ w. by destruct (only_read_refl w) as (? & ? & ? & ? & ? & ?).
Qed.

Lemma read_only_getMetadata k : read_only (getMetadata k).
Proof.
  unfold getMetadata.
  apply read_only_bind; [apply read_only_initDB | intros _].
  apply read_only_bind; [by apply read_only_idb_request | intros _].
  apply (read_only_look (fun w => value <$> metadata w !! k)).
Qed.

Lemma read_only_getCachedBusinesses : read_only getCachedBusinesses.
Proof.
  unfold getCachedBusinesses.
  apply read_only_bind; [apply read_only_initDB | intros _].
  apply read_only_bind; [by apply read_only_idb_request | intros _].
  apply (read_only_look
           (fun w => cached <$> (snd <$> map_to_list (businesses w)))).
Qed.

Lemma read_only_getCachedCategories : read_only getCachedCategories.
Proof.
  unfold getCachedCategories.
  apply read_only_bind; [apply read_only_initDB | intros _].
  apply read_only_bind; [by apply read_only_idb_request | intros _].
  apply (read_only_look (fun w => snd <$> map_to_list (categories w))).
Qed.

Lemma read_only_read_cache : read_only read_cache.
Proof.
  unfold read_cache. apply read_only_bind; [| intros r; apply read_only_ret].
  apply read_only_promise_all2;
    [apply read_only_getCachedBusinesses | apply read_only_getCachedCategories].
Qed.

(** Whatever is rejected on the way, a descriptor that [getMetadata]
    returns is the stored one. *)
Lemma getMetadata_value k w x w' :
  getMetadata k w = (Returned x, w') -> x = value <$> metadata w !! k.
Proof.
  unfold getMetadata, bind.
  pose proof (read_only_initDB w) as (_ & _ & Hm & _).
  destruct (initDB w) as [[[] | e] w1]; [| done]. cbn [snd] in Hm.
  pose proof (read_only_idb_request (EvGet SMetadata k) eq_refl w1)
    as (_ & _ & Hm' & _).
  destruct (idb_request _ w1) as [[[] | e] w2]; [| done]. cbn [snd] in Hm'.
  intros [= <- _]. by rewrite Hm', Hm.
Qed.

Lemma reads_never_fetch_or_write evs :
  forallb is_read evs = true ->
  occurrences (EvCall FetchAllData) evs = 0%nat /\
  forallb (fun e => negb (is_write e)) evs = true.
Proof.
  induction evs as [| e evs IH]; [done |].
  cbn [forallb]. intros [He Hevs]%andb_prop.
  destruct (IH Hevs) as [IH1 IH2]. rewrite occurrences_cons, IH1, IH2.
  split.
  - case_decide as E; [by rewrite E in He | done].
  - by destruct e as [[] | | | | | | |].
Qed.

(** With a local descriptor that matches the remote one, [smartSync] only
    reads, even when requests are rejected. *)
Lemma smartSync_fresh_only_reads remote localVersion fetchAllData w :
  local_version w = Some localVersion ->
  business_count localVersion = business_count remote ->
  last_updated localVersion = last_updated remote ->
  only_read w (snd (smartSync (Returned remote) fetchAllData w)).
Proof.
  intros Hlv Hc Hu.
  unfold smartSync, try_catch. unfold bind at 1, call at 1.
  set (w1 := record (EvCall FetchRemoteVersion) w).
  assert (H1 : only_read w w1) by (by apply only_read_record).
  unfold bind at 1. rewrite checkSyncNeeded_run. unfold getLocalVersion.
  pose proof (read_only_getMetadata "data_version" w1) as H2.
  destruct (getMetadata "data_version" w1) as [[lv | e] w2] eqn:E;
    cbn [snd] in H2.
  - apply getMetadata_value in E. change (lv = local_version w) in E.
    rewrite E, Hlv, (decide_sync_fresh _ _ Hc Hu).
    pose proof (read_only_read_cache w2) as H3.
    destruct (read_cache w2) as [[r | e] w3]; cbn [snd] in *.
    + eauto using only_read_trans.
    + pose proof (read_only_read_cache w3) as H4.
      eauto using only_read_trans.
  - pose proof (read_only_read_cache w2) as H3.
    eauto using only_read_trans.
Qed.

Lemma read_cache_ok w :
  healthy w ->
  read_cache w =
  (Returned (mkSyncResult no_change
               (cached <$> (snd <$> map_to_list (businesses w)))
               (snd <$> map_to_list (categories w)) true),
   count_request (record (EvGetAll SCategories)
     (count_request (record (EvGetAll SBusinesses) (opened w))))).
Proof.
  intros H. unfold read_cache, bind, promise_all2.
  rewrite getCachedBusinesses_ok by done.
  rewrite getCachedCategories_ok
    by (intros k; cbn [count_request record faults]; by apply healthy_opened).
  unfold ret. cbn [fst snd].
  assert (E : opened (count_request (record (EvGetAll SBusinesses) (opened w)))
              = count_request (record (EvGetAll SBusinesses) (opened w))).
  { unfold opened at 1. cbn [count_request record dbInstance].
    by rewrite dbInstance_opened. }
  rewrite E. cbn [count_request record categories].
  by destruct (opened_stores w) as (_ & -> & _).
Qed.

Lemma smartSync_fresh_returns_cache remote localVersion fetchAllData w :
  healthy w ->
  local_version w = Some localVersion ->
  business_count localVersion = business_count remote ->
  last_updated localVersion = last_updated remote ->
  fst (smartSync (Returned remote) fetchAllData w) =
  Returned (mkSyncResult no_change
              (cached <$> (snd <$> map_to_list (businesses w)))
              (snd <$> map_to_list (categories w)) true).
Proof.
  intros H Hlv Hc Hu.
  unfold smartSync, try_catch. unfold bind at 1, call at 1.
  unfold bind at 1. rewrite checkSyncNeeded_run. unfold getLocalVersion.
  rewrite getMetadata_ok by (intros n; apply H).
  replace (value <$> metadata (record (EvCall FetchRemoteVersion) w)
             !! "data_version") with (local_version w) by done.
  rewrite Hlv, (decide_sync_fresh _ _ Hc Hu).
  destruct w as [db bsm csm md ck fl n tr].
  destruct db.
  all: by rewrite read_cache_ok by (intros k; exact (H k)).
Qed.

(** C2. When the remote descriptor equals the stored local one in record
    count and [last_updated] (whatever their [last_sync]), [smartSync]
    never calls the full-data accessor, issues no write request and
    leaves the three stores as they were, even when store requests are
    rejected; when none is rejected it returns the cached businesses and
    categories with action [no_change] and [fromCache = true]. *)
Theorem smartSync_fresh_no_change
    (remote localVersion : DataVersion) (fetchAllData : outcome AllData)
    (w : World) :
  local_version w = Some localVersion ->
  business_count localVersion = business_count remote ->
  last_updated localVersion = last_updated remote ->
  let out := smartSync (Returned remote) fetchAllData w in
  (exists evs,
     trace (snd out) = trace w ++ evs /\
     occurrences (EvCall FetchAllData) evs = 0%nat /\
     forallb (fun e => negb (is_write e)) evs = true) /\
  businesses (snd out) = businesses w /\
  categories (snd out) = categories w /\
  metadata (snd out) = metadata w /\
  (healthy w ->
   fst out =
     Returned (mkSyncResult no_change
                 (cached <$> (snd <$> map_to_list (businesses w)))
                 (snd <$> map_to_list (categories w)) true)).
Proof.
  intros Hlv Hc Hu out.
  destruct (smartSync_fresh_only_reads remote localVersion fetchAllData w
              Hlv Hc Hu) as (Hb & Hcs & Hm & _ & _ & evs & Ht & He).
  fold out in Hb, Hcs, Hm, Ht.
  destruct (reads_never_fetch_or_write evs He) as [Hn Hw].
  split; [by exists evs |]. repeat (split; [done |]).
  intros H. by apply (smartSync_fresh_returns_cache _ localVersion).
Qed.

(** When only the network fails, the fallback of [smartSync] does return
    the cache. *)
Lemma smartSync_remote_version_throws e fetchAllData w :
  healthy w ->
  exists w',
    smartSync (Threw e) fetchAllData w =
      (Returned (mkSyncResult no_change
                   (cached <$> (snd <$> map_to_list (businesses w)))
                   (snd <$> map_to_list (categories w)) true), w') /\
    businesses w' = businesses w /\
    categories w' = categories w /\
    metadata w' = metadata w.
Proof.
  intros H. unfold smartSync, try_catch. unfold bind at 1, call at 1.
  rewrite read_cache_ok by (intros k; exact (H k)).
  eexists; split; [reflexivity |].
  destruct w as [db bsm csm md ck fl n tr]. by destruct db.
Qed.

Lemma smartSync_full_fetch_throws remote e w :
  healthy w ->
  stale (local_version w) remote ->
  exists w',
    smartSync (Returned remote) (Threw e) w =
      (Returned (mkSyncResult no_change
                   (cached <$> (snd <$> map_to_list (businesses w)))
                   (snd <$> map_to_list (categories w)) true), w') /\
    businesses w' = businesses w /\
    categories w' = categories w /\
    metadata w' = metadata w.
Proof.
  intros H Hstale. unfold smartSync, try_catch. unfold bind at 1, call at 1.
  unfold bind at 1. rewrite checkSyncNeeded_run. unfold getLocalVersion.
  rewrite getMetadata_ok by (intros n; apply H).
  replace (value <$> metadata (record (EvCall FetchRemoteVersion) w)
             !! "data_version") with (local_version w) by done.
  rewrite (decide_sync_stale _ _ Hstale).
  unfold bind at 1, call at 1.
  destruct w as [db bsm csm md ck fl n tr]. destruct db.
  all: rewrite read_cache_ok by (intros k; exact (H k)).
  all: eexists; split; [reflexivity |]; done.
Qed.

(** C3, at the failing input. With the store unavailable, the local
    descriptor cannot be loaded, the handler's own reads of the two
    collections are rejected as well, and [smartSync] ends by throwing:
    the rejection escapes instead of a [no_change] result being
    returned. *)
Theorem smartSync_unavailable_store_throws :
  fst (smartSync (Returned version_13) (Returned (mkAllData [] []))
         unavailable_store) = Threw StoreError.
Proof. vm_compute. reflexivity. Qed.

Lemma read_cache_action w r w' :
  read_cache w = (Returned r, w') -> action r = no_change.
Proof.
  unfold read_cache, bind, ret.
  destruct (promise_all2 _ _ w) as [[p | e] w1]; [| done].
  by intros [= <- _].
Qed.

(** C10. [checkSyncNeeded] and [smartSync] never produce
    [incremental_sync]: whenever [smartSync] returns, its action is
    [no_change] or [full_sync], for all accessor outcomes and every world,
    failing store included. *)
Theorem smartSync_never_incremental
    (fetchRemoteVersion : outcome DataVersion)
    (fetchAllData : outcome AllData) (remote : DataVersion) (w : World) :
  match fst (checkSyncNeeded remote w) with
  | Returned a => a = no_change \/ a = full_sync
  | Threw _ => True
  end /\
  match fst (smartSync fetchRemoteVersion fetchAllData w) with
  | Returned r => action r = no_change \/ action r = full_sync
  | Threw _ => True
  end.
Proof.
  split.
  - rewrite checkSyncNeeded_run.
    destruct (getLocalVersion w) as [[lv | e] w1]; [| done]. cbn [fst].
    pose proof (decide_sync_two_valued lv remote).
    destruct (decide_sync lv remote); auto. done.
  - unfold smartSync, try_catch.
    set (handler := fun _ : JsError => read_cache).
    match goal with |- context [match ?b w with _ => _ end] =>
      destruct (b w) as [[r | e] w1] eqn:Hbody end.
    + cbn [fst]. revert Hbody. unfold bind at 1, call at 1.
      destruct fetchRemoteVersion as [rv | e]; [| done].
      unfold bind at 1. rewrite checkSyncNeeded_run.
      destruct (getLocalVersion _) as [[lv | e] w2]; [| done].
      destruct (decide_sync lv rv) eqn:Ed.
      * intros Hr. left. by apply read_cache_action in Hr.
      * unfold bind at 1, call at 1.
        destruct fetchAllData as [data | e]; [| done].
        unfold bind at 1, Date_now at 1. unfold bind at 1.
        destruct (promise_all3 _ _ _ _) as [[? | ?] w3]; [| done].
        unfold ret. intros [= <- _]. by right.
      * by destruct (decide_sync_two_valued lv rv).
    + unfold handler.
      destruct (read_cache w1) as [[r | e'] w2] eqn:Hr; [| done].
      left. by apply read_cache_action in Hr.
Qed.

Lemma synced_store_healthy : healthy synced_store.
Proof. intros n. reflexivity. Defined.

Lemma smartSync_stale_full_sync_witness :
  exists w',
    smartSync (Returned version_13)
      (Returned (mkAllData [shop "b1"] [grocery])) synced_store =
    (Returned (mkSyncResult full_sync [shop "b1"] [grocery] false), w') /\
    local_version w' =
      Some (mkVersion 13 "2024-01-02T00:00:00Z" 1700000000000).
Proof.
  destruct (smartSync_stale_full_sync version_13
              (mkAllData [shop "b1"] [grocery]) synced_store)
    as (w' & evs & Hr & _ & _ & _ & _ & _ & _ & _ & _ & _ & _ & Hv).
  - exact synced_store_healthy.
  - vm_compute. left. discriminate.
  - exists w'. split; [exact Hr | exact Hv].
Defined.

Lemma smartSync_fresh_no_change_witness :
  let out :=
    smartSync (Returned (mkVersion 12 "2024-01-01T00:00:00Z" 1700000000000))
      (Threw (RemoteError "offline")) synced_store in
  (exists r,
     fst out = Returned r /\ action r = no_change /\ fromCache r = true /\
     length (result_businesses r) = 5%nat) /\
  businesses (snd out) = businesses synced_store.
Proof.
  destruct (smartSync_fresh_no_change
              (mkVersion 12 "2024-01-01T00:00:00Z" 1700000000000)
              version_12 (Threw (RemoteError "offline")) synced_store)
    as (_ & Hb & _ & _ & Hr).
  - vm_compute. reflexivity.
  - reflexivity.
  - reflexivity.
  - split; [| exact Hb].
    eexists. split; [exact (Hr synced_store_healthy) |].
    split; [reflexivity |]. split; [reflexivity |].
    vm_compute. reflexivity.
Defined.

Lemma setCachedBusinesses_then_getCachedBusinesses_witness :
  exists w1 w2 out,
    setCachedBusinesses [shop "b7"; shop "b2"] synced_store =
      (Returned tt, w1) /\
    getCachedBusinesses w1 = (Returned out, w2) /\
    out ≡ₚ [shop "b7"; shop "b2"] /\
    businesses w1 !! "b1" = None.
Proof.
  destruct (setCachedBusinesses_then_getCachedBusinesses
              [shop "b7"; shop "b2"] synced_store)
    as (w1 & w2 & out & H1 & H2 & Hp & _ & Hgone).
  - exact synced_store_healthy.
  - apply (bool_decide_unpack _). vm_compute. reflexivity.
  - exists w1, w2, out. split; [exact H1 |]. split; [exact H2 |].
    split; [exact Hp |]. apply Hgone.
    apply (bool_decide_unpack _). vm_compute. reflexivity.
Defined.

(** ** Further operations of the cache service *)

Lemma idb_untraced_request_ok w :
  healthy w -> idb_untraced_request w = (Returned tt, count_request w).
Proof. intros H. unfold idb_untraced_request. by rewrite H. Qed.

Lemma opened_again w : dbInstance w = true -> opened w = w.
Proof. intros H. unfold opened. by rewrite H. Qed.

Lemma healthy_same w w' : faults w' = faults w -> healthy w -> healthy w'.
Proof. intros E H n. rewrite E. apply H. Qed.

Section CategoryLoop.

Let put (m : gmap string Category) (c : Category) := <[category_id c := c]> m.

Lemma category_loop_to_list (cs : list Category) (m : gmap string Category) :
  NoDup (category_id <$> cs) ->
  (forall c, c ∈ cs -> m !! category_id c = None) ->
  snd <$> map_to_list (foldl put m cs) ≡ₚ cs ++ (snd <$> map_to_list m).
Proof.
  revert m. induction cs as [| c cs IH]; intros m Hnd Hfresh.
  - done.
  - cbn [foldl fmap list_fmap] in *. apply NoDup_cons in Hnd as [Hc Hnd].
    rewrite IH; [| done |].
    + unfold put at 1. rewrite map_to_list_insert.
      * cbn [fmap list_fmap snd]. symmetry. exact (Permutation_middle _ _ _).
      * apply Hfresh, list_elem_of_here.
    + intros c' Hc'. unfold put. rewrite lookup_insert_ne.
      * apply Hfresh. by apply list_elem_of_further.
      * intros E. apply Hc. rewrite E. apply list_elem_of_fmap. eauto.
Qed.

End CategoryLoop.

(** X1. For categories with pairwise-distinct identifiers and any prior
    contents, [setCachedCategories] followed by [getCachedCategories]
    returns the categories passed in, up to order, and leaves the
    businesses and the metadata as they were. *)
Theorem setCachedCategories_then_getCachedCategories
    (cs : list Category) (w : World) :
  healthy w ->
  NoDup (category_id <$> cs) ->
  exists w1 w2 out,
    setCachedCategories cs w = (Returned tt, w1) /\
    getCachedCategories w1 = (Returned out, w2) /\
    out ≡ₚ cs /\
    businesses w1 = businesses w /\
    metadata w1 = metadata w.
Proof.
  intros H Hnd.
  assert (Hh : healthy (replaced_categories cs (opened w))).
  { intros n. cbn [replaced_categories faults]. by apply healthy_opened. }
  destruct (opened_stores w) as (Hb & _ & Hm & _).
  eexists _, _, _. split; [by apply setCachedCategories_ok |].
  split; [by apply getCachedCategories_ok |].
  split; [| by split].
  cbn [replaced_categories categories].
  rewrite category_loop_to_list; [| done | intros; apply lookup_empty].
  by rewrite map_to_list_empty, app_nil_r.
Qed.

Lemma setCachedCategories_then_getCachedCategories_witness :
  exists w1 w2 out,
    setCachedCategories [mkCategory "food" "Food" "fa-utensils"; grocery]
      synced_store = (Returned tt, w1) /\
    getCachedCategories w1 = (Returned out, w2) /\
    out ≡ₚ [mkCategory "food" "Food" "fa-utensils"; grocery].
Proof.
  destruct (setCachedCategories_then_getCachedCategories
              [mkCategory "food" "Food" "fa-utensils"; grocery] synced_store)
    as (w1 & w2 & out & H1 & H2 & Hp & _).
  - intros n. reflexivity.
  - apply (bool_decide_unpack _). vm_compute. reflexivity.
  - by exists w1, w2, out.
Defined.

(** X2. What [setLocalVersion] stores is what [getLocalVersion] returns
    afterwards, whatever was stored before; the call stamps the entry
    with the current time and touches neither collection. *)
Theorem setLocalVersion_then_getLocalVersion
    (version : DataVersion) (w : World) :
  healthy w ->
  exists w1 w2,
    setLocalVersion version w = (Returned tt, w1) /\
    getLocalVersion w1 = (Returned (Some version), w2) /\
    metadata w1 !! "data_version" =
      Some (mkMeta "data_version" version (clock w)) /\
    businesses w1 = businesses w /\
    categories w1 = categories w.
Proof.
  intros H. unfold setLocalVersion, getLocalVersion.
  destruct (opened_stores w) as (Hb & Hc & _).
  eexists _, _. split; [by apply setMetadata_ok |].
  split; [| split; [| by split]].
  - rewrite getMetadata_ok.
    + cbn [set_metadata metadata]. by rewrite lookup_insert_eq.
    + intros n. cbn [set_metadata count_request record faults].
      by apply healthy_opened.
  - cbn [set_metadata metadata]. by rewrite lookup_insert_eq.
Qed.

Lemma setLocalVersion_then_getLocalVersion_witness :
  exists w1 w2,
    setLocalVersion version_13 synced_store = (Returned tt, w1) /\
    getLocalVersion w1 = (Returned (Some version_13), w2).
Proof.
  destruct (setLocalVersion_then_getLocalVersion version_13 synced_store)
    as (w1 & w2 & H1 & H2 & _).
  - intros n. reflexivity.
  - by exists w1, w2.
Defined.

Lemma elem_of_cached_list (m : gmap string CachedBusiness) (x : Business) :
  x ∈ cached_list m <-> exists k c, m !! k = Some c /\ cached c = x.
Proof.
  unfold cached_list. rewrite list_elem_of_fmap. split.
  - intros (c & -> & Hc). apply list_elem_of_fmap in Hc as ([k c'] & -> & Hkc).
    apply elem_of_map_to_list in Hkc. by exists k, c'.
  - intros (k & c & Hk & <-). exists c. split; [done |].
    apply list_elem_of_fmap. exists (k, c). split; [done |].
    by apply elem_of_map_to_list.
Qed.

Lemma NoDup_cached_list (m : gmap string CachedBusiness) :
  keyed_by_id m -> NoDup (cached_list m).
Proof.
  intros Hkey. unfold cached_list. rewrite <- list_fmap_compose.
  apply NoDup_fmap_2_strong; [| apply NoDup_map_to_list].
  intros [k1 c1] [k2 c2] H1%elem_of_map_to_list H2%elem_of_map_to_list E.
  cbn in E.
  assert (k1 = k2) as ->.
  { rewrite <- (Hkey _ _ H1), <- (Hkey _ _ H2). by rewrite E. }
  rewrite H1 in H2. by injection H2 as ->.
Qed.

Lemma updateCachedBusiness_ok b w :
  healthy w ->
  updateCachedBusiness b w =
  (Returned tt,
   set_businesses (<[business_id b := mkCached b (clock w)]> (businesses w))
     (count_request (record (EvPut SBusinesses (business_id b)) (opened w)))).
Proof.
  intros H. unfold updateCachedBusiness, bind, Date_now.
  rewrite initDB_ok by done.
  rewrite idb_request_ok by (by apply healthy_opened).
  wsimpl. by destruct (opened_stores w) as (-> & _ & _ & ->).
Qed.

Lemma deleteCachedBusiness_ok k w :
  healthy w ->
  deleteCachedBusiness k w =
  (Returned tt,
   set_businesses (delete k (businesses w)) (count_request (opened w))).
Proof.
  intros H. unfold deleteCachedBusiness, bind.
  rewrite initDB_ok by done.
  rewrite idb_untraced_request_ok by (by apply healthy_opened).
  wsimpl. by destruct (opened_stores w) as (-> & _).
Qed.

(** X3. After [updateCachedBusiness b] the cache lists [b], exactly once,
    together with exactly the businesses cached before under another
    identifier; the categories and the version descriptor are not
    touched. *)
Theorem updateCachedBusiness_upserts (b : Business) (w : World) :
  healthy w ->
  keyed_by_id (businesses w) ->
  exists w1 w2 out,
    updateCachedBusiness b w = (Returned tt, w1) /\
    getCachedBusinesses w1 = (Returned out, w2) /\
    (forall x, x ∈ out <->
       x = b \/ (x ∈ cached_list (businesses w) /\
                 business_id x <> business_id b)) /\
    NoDup out /\
    categories w1 = categories w /\ metadata w1 = metadata w.
Proof.
  intros H Hkey.
  set (m' := <[business_id b := mkCached b (clock w)]> (businesses w)).
  assert (Hkey' : keyed_by_id m').
  { intros k c. unfold m'. rewrite lookup_insert. case_decide as E.
    - by intros [= <-].
    - apply Hkey. }
  destruct (opened_stores w) as (_ & Hc & Hm & _).
  eexists _, _, _. split; [by apply updateCachedBusiness_ok |].
  split.
  { apply getCachedBusinesses_ok. intros n.
    cbn [set_businesses count_request record faults]. by apply healthy_opened. }
  cbn [set_businesses businesses categories metadata count_request record].
  fold m'. fold (cached_list m').
  split; [| split; [by apply NoDup_cached_list | by split]].
  intros x. rewrite !elem_of_cached_list. split.
  - intros (k & c & Hk & <-). unfold m' in Hk. rewrite lookup_insert in Hk.
    case_decide as E.
    + left. by injection Hk as <-.
    + right. split; [eauto |]. by rewrite (Hkey _ _ Hk).
  - intros [-> | [(k & c & Hk & <-) Hne]].
    + exists (business_id b), (mkCached b (clock w)). split; [| done].
      unfold m'. by rewrite lookup_insert_eq.
    + exists k, c. split; [| done]. unfold m'.
      rewrite lookup_insert_ne; [done |]. by rewrite <- (Hkey _ _ Hk).
Qed.

Lemma synced_store_keyed : keyed_by_id (businesses synced_store).
Proof.
  intros k c Hk. apply elem_of_map_to_list in Hk. revert Hk.
  vm_compute map_to_list. intros Hk.
  repeat (apply elem_of_cons in Hk as [[= -> ->] | Hk]; [reflexivity |]).
  by apply not_elem_of_nil in Hk.
Defined.

Lemma updateCachedBusiness_upserts_witness :
  exists w1 w2 out,
    updateCachedBusiness (shop "b9") synced_store = (Returned tt, w1) /\
    getCachedBusinesses w1 = (Returned out, w2) /\
    shop "b9" ∈ out /\ NoDup out.
Proof.
  destruct (updateCachedBusiness_upserts (shop "b9") synced_store)
    as (w1 & w2 & out & H1 & H2 & Hin & Hnd & _).
  - intros n. reflexivity.
  - exact synced_store_keyed.
  - exists w1, w2, out. repeat split; try done. apply Hin. by left.
Defined.

(** X4. After [deleteCachedBusiness id] the cache lists exactly the
    businesses cached before under another identifier; when no cached
    business has that identifier the collection is unchanged.  Categories
    and version descriptor are not touched. *)
Theorem deleteCachedBusiness_removes (businessId : string) (w : World) :
  healthy w ->
  keyed_by_id (businesses w) ->
  exists w1 w2 out,
    deleteCachedBusiness businessId w = (Returned tt, w1) /\
    getCachedBusinesses w1 = (Returned out, w2) /\
    (forall x, x ∈ out <->
       x ∈ cached_list (businesses w) /\ business_id x <> businessId) /\
    (businesses w !! businessId = None -> businesses w1 = businesses w) /\
    categories w1 = categories w /\ metadata w1 = metadata w.
Proof.
  intros H Hkey.
  destruct (opened_stores w) as (_ & Hc & Hm & _).
  eexists _, _, _. split; [by apply deleteCachedBusiness_ok |].
  split.
  { apply getCachedBusinesses_ok. intros n.
    cbn [set_businesses count_request faults]. by apply healthy_opened. }
  cbn [set_businesses businesses categories metadata count_request].
  fold (cached_list (delete businessId (businesses w))).
  split; [| split; [by apply delete_id | by split]].
  intros x. rewrite !elem_of_cached_list. split.
  - intros (k & c & Hk & <-). apply lookup_delete_Some in Hk as [Hne Hk].
    split; [eauto |]. by rewrite (Hkey _ _ Hk).
  - intros [(k & c & Hk & <-) Hne]. exists k, c. split; [| done].
    apply lookup_delete_Some. split; [| done]. by rewrite <- (Hkey _ _ Hk).
Qed.

Lemma deleteCachedBusiness_removes_witness :
  exists w1 w2 out,
    deleteCachedBusiness "b2" synced_store = (Returned tt, w1) /\
    getCachedBusinesses w1 = (Returned out, w2) /\
    (shop "b2" ∉ out) /\ (shop "b1" ∈ out).
Proof.
  destruct (deleteCachedBusiness_removes "b2" synced_store)
    as (w1 & w2 & out & H1 & H2 & Hin & _).
  - intros n. reflexivity.
  - exact synced_store_keyed.
  - exists w1, w2, out. repeat split; try done.
    + intros Hx. apply Hin in Hx as [_ Hne]. by apply Hne.
    + apply Hin. split; [| done]. apply elem_of_cached_list.
      exists "b1", (mkCached (shop "b1") 1600000000000). split; [| done].
      vm_compute. reflexivity.
Defined.

(** ** Sync runs that follow one another *)

(** A full sync, without the bookkeeping of its trace. *)
Lemma smartSync_stale_run remote data w :
  healthy w ->
  stale (local_version w) remote ->
  exists w',
    smartSync (Returned remote) (Returned data) w =
      (Returned (mkSyncResult full_sync (data_businesses data)
                              (data_categories data) false), w') /\
    faults w' = faults w /\ clock w' = clock w /\
    businesses w' =
      foldl (fun m b => <[business_id b := mkCached b (clock w)]> m) ∅
            (data_businesses data) /\
    categories w' =
      foldl (fun m c => <[category_id c := c]> m) ∅ (data_categories data) /\
    local_version w' =
      Some (mkVersion (business_count remote) (last_updated remote) (clock w)).
Proof.
  intros H Hstale.
  unfold smartSync, try_catch. unfold bind at 1, call at 1.
  unfold bind at 1. rewrite checkSyncNeeded_run. unfold getLocalVersion.
  rewrite getMetadata_ok by (intros n; apply H).
  replace (value <$> metadata (record (EvCall FetchRemoteVersion) w)
             !! "data_version") with (local_version w) by done.
  rewrite (decide_sync_stale _ _ Hstale).
  unfold bind at 1, call at 1. unfold bind at 1, Date_now at 1.
  unfold bind at 1, promise_all3.
  destruct w as [db bsm csm md ck fl n tr].
  destruct db.
  all: rewrite setCachedBusinesses_ok by (intros k; exact (H k)).
  all: rewrite setCachedCategories_ok by (intros k; exact (H k)).
  all: unfold setLocalVersion.
  all: rewrite setMetadata_ok by (intros k; exact (H k)).
  all: unfold ret.
  all: eexists; split; [reflexivity |].
  all: do 4 (split; [reflexivity |]).
  all: unfold local_version; wcompute.
  all: by rewrite lookup_insert_eq.
Qed.

Lemma clearCache_ok w :
  healthy w ->
  exists w',
    clearCache w = (Returned tt, w') /\
    faults w' = faults w /\
    businesses w' = ∅ /\ categories w' = ∅ /\ metadata w' = ∅.
Proof.
  intros H. unfold clearCache. unfold bind at 1.
  rewrite initDB_ok by done. pose proof (healthy_opened w H) as Ho.
  unfold bind at 1, promise_all3.
  unfold bind at 1. rewrite idb_request_ok by done.
  unfold bind at 1. rewrite idb_request_ok by (intros n; apply Ho).
  unfold bind at 1. rewrite idb_request_ok by (intros n; apply Ho).
  unfold ret. eexists. split; [reflexivity |]. wsimpl.
  split; [unfold opened; by destruct (dbInstance w) |]. by repeat split.
Qed.

(** X5. After [clearCache] the three stores are empty, and the next
    [smartSync] is a full sync whatever the remote descriptor is. *)
Theorem clearCache_forces_full_sync
    (remote : DataVersion) (data : AllData) (w : World) :
  healthy w ->
  exists w1 w2,
    clearCache w = (Returned tt, w1) /\
    businesses w1 = ∅ /\ categories w1 = ∅ /\ metadata w1 = ∅ /\
    smartSync (Returned remote) (Returned data) w1 =
      (Returned (mkSyncResult full_sync (data_businesses data)
                              (data_categories data) false), w2).
Proof.
  intros H.
  destruct (clearCache_ok w H) as (w1 & Hc & Hf & Hb & Hcs & Hm).
  destruct (smartSync_stale_run remote data w1) as (w2 & Hs & _).
  - by apply (healthy_same w).
  - unfold local_version. by rewrite Hm, lookup_empty.
  - by exists w1, w2.
Qed.

Lemma clearCache_forces_full_sync_witness :
  exists w1 w2,
    clearCache synced_store = (Returned tt, w1) /\
    smartSync (Returned version_12) (Returned (mkAllData five_shops [grocery]))
      w1 =
    (Returned (mkSyncResult full_sync five_shops [grocery] false), w2).
Proof.
  destruct (clearCache_forces_full_sync version_12
              (mkAllData five_shops [grocery]) synced_store)
    as (w1 & w2 & H1 & _ & _ & _ & H2).
  - intros n. reflexivity.
  - by exists w1, w2.
Defined.

(** X6. A sync that follows a successful full sync and sees a remote
    descriptor with the same count and timestamp answers [no_change] from
    the cache and returns what the full sync fetched, up to order, when
    identifiers are pairwise distinct. *)
Theorem smartSync_twice
    (remote remote' : DataVersion) (data : AllData)
    (fetchAllData : outcome AllData) (w : World) :
  healthy w ->
  stale (local_version w) remote ->
  NoDup (business_id <$> data_businesses data) ->
  NoDup (category_id <$> data_categories data) ->
  business_count remote' = business_count remote ->
  last_updated remote' = last_updated remote ->
  exists w1 r2,
    smartSync (Returned remote) (Returned data) w =
      (Returned (mkSyncResult full_sync (data_businesses data)
                              (data_categories data) false), w1) /\
    fst (smartSync (Returned remote') fetchAllData w1) = Returned r2 /\
    action r2 = no_change /\ fromCache r2 = true /\
    result_businesses r2 ≡ₚ data_businesses data /\
    result_categories r2 ≡ₚ data_categories data.
Proof.
  intros H Hstale Hnb Hnc Hc Hu.
  destruct (smartSync_stale_run remote data w H Hstale)
    as (w1 & Hs & Hf & _ & Hb & Hcs & Hv).
  exists w1. eexists. split; [exact Hs |]. split.
  - eapply smartSync_fresh_returns_cache;
      [by apply (healthy_same w) | exact Hv | by rewrite Hc | by rewrite Hu].
  - cbn [action fromCache result_businesses result_categories].
    split; [done |]. split; [done |]. split.
    + rewrite Hb, put_loop_to_list; [| done | intros; apply lookup_empty].
      by rewrite map_to_list_empty, app_nil_r, unstamp.
    + rewrite Hcs, category_loop_to_list; [| done | intros; apply lookup_empty].
      by rewrite map_to_list_empty, app_nil_r.
Qed.

Lemma smartSync_twice_witness :
  exists w1 r2,
    smartSync (Returned version_13)
      (Returned (mkAllData [shop "b1"; shop "b6"] [grocery])) synced_store =
      (Returned (mkSyncResult full_sync [shop "b1"; shop "b6"] [grocery] false),
       w1) /\
    fst (smartSync (Returned (mkVersion 13 "2024-01-02T00:00:00Z" 0))
           (Threw (RemoteError "offline")) w1) = Returned r2 /\
    action r2 = no_change /\
    result_businesses r2 ≡ₚ [shop "b1"; shop "b6"].
Proof.
  destruct (smartSync_twice version_13 (mkVersion 13 "2024-01-02T00:00:00Z" 0)
              (mkAllData [shop "b1"; shop "b6"] [grocery])
              (Threw (RemoteError "offline")) synced_store)
    as (w1 & r2 & H1 & H2 & Ha & _ & Hb & _).
  - intros n. reflexivity.
  - vm_compute. left. discriminate.
  - apply (bool_decide_unpack _). vm_compute. reflexivity.
  - apply (bool_decide_unpack _). vm_compute. reflexivity.
  - reflexivity.
  - reflexivity.
  - by exists w1, r2.
Defined.

(** X7. When the store works and only the network fails (the version
    check throws, or the descriptor is stale and the full fetch throws),
    [smartSync] returns the cached businesses and categories with
    [no_change] and [fromCache = true], and the three stores are as
    before. *)
Theorem smartSync_network_failure_returns_cache
    (fetchRemoteVersion : outcome DataVersion)
    (fetchAllData : outcome AllData) (w : World) :
  healthy w ->
  (exists e, fetchRemoteVersion = Threw e) \/
  (exists remote e,
     fetchRemoteVersion = Returned remote /\
     stale (local_version w) remote /\ fetchAllData = Threw e) ->
  exists w',
    smartSync fetchRemoteVersion fetchAllData w =
      (Returned (mkSyncResult no_change (cached_list (businesses w))
                   (snd <$> map_to_list (categories w)) true), w') /\
    businesses w' = businesses w /\
    categories w' = categories w /\
    metadata w' = metadata w.
Proof.
  intros H [[e ->] | (remote & e & -> & Hstale & ->)].
  - by apply smartSync_remote_version_throws.
  - by apply smartSync_full_fetch_throws.
Qed.

Lemma smartSync_network_failure_returns_cache_witness :
  exists r w',
    smartSync (Returned version_13) (Threw (RemoteError "Failed to fetch"))
      synced_store = (Returned r, w') /\
    action r = no_change /\ length (result_businesses r) = 5%nat.
Proof.
  destruct (smartSync_network_failure_returns_cache (Returned version_13)
              (Threw (RemoteError "Failed to fetch")) synced_store)
    as (w' & Hr & _).
  - intros n. reflexivity.
  - right. exists version_13, (RemoteError "Failed to fetch").
    split; [reflexivity |]. split; [| reflexivity].
    vm_compute. left. discriminate.
  - eexists _, w'. split; [exact Hr |]. split; [reflexivity |].
    vm_compute. reflexivity.
Defined.

Lemma getCacheSize_ok w :
  healthy w ->
  exists w',
    getCacheSize w =
    (Returned (mkCacheSize (size (businesses w)) (size (categories w))
                 (last_sync_or_null (local_version w))), w').
Proof.
  intros H. unfold getCacheSize. unfold bind at 1.
  rewrite initDB_ok by done. pose proof (healthy_opened w H) as Ho.
  destruct (opened_stores w) as (Hb & Hc & Hm & _).
  unfold bind at 1, promise_all3.
  unfold bind at 1. rewrite idb_untraced_request_ok by done.
  unfold bind at 1. rewrite idb_untraced_request_ok by (intros n; apply Ho).
  unfold getLocalVersion. rewrite getMetadata_ok by (intros n; apply Ho).
  unfold ret. wsimpl. rewrite Hb, Hc. eexists. do 3 f_equal.
  unfold local_version. by rewrite <- Hm.
Qed.

(** X8. After a successful full sync of records with pairwise-distinct
    identifiers, [getCacheSize] reports the number of businesses and of
    categories fetched, and the time of the sync as [lastSync] ([null]
    when that time is 0). *)
Theorem getCacheSize_after_full_sync
    (remote : DataVersion) (data : AllData) (w : World) :
  healthy w ->
  stale (local_version w) remote ->
  NoDup (business_id <$> data_businesses data) ->
  NoDup (category_id <$> data_categories data) ->
  exists w1 w2,
    smartSync (Returned remote) (Returned data) w =
      (Returned (mkSyncResult full_sync (data_businesses data)
                              (data_categories data) false), w1) /\
    getCacheSize w1 =
      (Returned (mkCacheSize (length (data_businesses data))
                   (length (data_categories data))
                   (if Z.eqb (clock w) 0 then None else Some (clock w))), w2).
Proof.
  intros H Hstale Hnb Hnc.
  destruct (smartSync_stale_run remote data w H Hstale)
    as (w1 & Hs & Hf & _ & Hb & Hcs & Hv).
  destruct (getCacheSize_ok w1) as (w2 & Hsize); [by apply (healthy_same w) |].
  exists w1, w2. split; [exact Hs |]. rewrite Hsize, Hv. do 2 f_equal.
  f_equal.
  - rewrite <- length_map_to_list, Hb.
    rewrite put_loop_to_list; [| done | intros; apply lookup_empty].
    by rewrite map_to_list_empty, app_nil_r, length_fmap.
  - rewrite <- length_map_to_list, Hcs.
    rewrite <- (length_fmap snd).
    rewrite category_loop_to_list; [| done | intros; apply lookup_empty].
    by rewrite map_to_list_empty, app_nil_r.
Qed.

Lemma getCacheSize_after_full_sync_witness :
  exists w1 w2,
    smartSync (Returned version_13)
      (Returned (mkAllData [shop "b1"; shop "b6"] [grocery])) synced_store =
      (Returned (mkSyncResult full_sync [shop "b1"; shop "b6"] [grocery] false),
       w1) /\
    getCacheSize w1 =
      (Returned (mkCacheSize 2 1 (Some 1700000000000)), w2).
Proof.
  destruct (getCacheSize_after_full_sync version_13
              (mkAllData [shop "b1"; shop "b6"] [grocery]) synced_store)
    as (w1 & w2 & H1 & H2).
  - intros n. reflexivity.
  - vm_compute. left. discriminate.
  - apply (bool_decide_unpack _). vm_compute. reflexivity.
  - apply (bool_decide_unpack _). vm_compute. reflexivity.
  - by exists w1, w2.
Defined.

End CacheFacts.

(** * Part II: properties of the remote data service *)

Module RemoteFacts.

Import Cache CacheFacts Remote.

Section GetDataVersion.

Variable toISOString : Z -> string.

Lemma getDataVersion_returns countQuery updatedQuery now :
  exists v, getDataVersion toISOString countQuery updatedQuery now = Returned v.
Proof.
  unfold getDataVersion, otry, obind, throw_api.
  destruct countQuery as [r1 | e1]; [| eauto].
  destruct (countError r1); [eauto |].
  destruct updatedQuery as [r2 | e2]; [| eauto].
  destruct (updateError r2) as [e |]; [| eauto].
  destruct (negb _); eauto.
Qed.

Lemma getDataVersion_fallback countQuery updatedQuery now :
  count_failed countQuery \/ updated_failed updatedQuery ->
  getDataVersion toISOString countQuery updatedQuery now =
  Returned (mkVersion 0 (toISOString now) now).
Proof.
  unfold getDataVersion, otry, obind, throw_api, count_failed, updated_failed.
  destruct countQuery as [r1 | e1]; [| done].
  destruct (countError r1); [done |].
  destruct updatedQuery as [r2 | e2]; [| done].
  intros [Hc | (e & -> & He)]; [done |].
  apply String.eqb_neq in He. by rewrite He.
Qed.

Lemma getDataVersion_resolved countQuery updatedQuery now :
  ~ (count_failed countQuery \/ updated_failed updatedQuery) ->
  exists r1 r2,
    countQuery = Returned r1 /\ updatedQuery = Returned r2 /\
    getDataVersion toISOString countQuery updatedQuery now =
      Returned (mkVersion (count_or_zero (count r1))
                  (updated_at_or (data r2) (toISOString now)) now).
Proof.
  unfold getDataVersion, otry, obind, throw_api, count_failed, updated_failed.
  intros Hno.
  destruct countQuery as [r1 | e1]; [| exfalso; apply Hno; by left].
  destruct (countError r1) eqn:E1; [exfalso; apply Hno; by left |].
  destruct updatedQuery as [r2 | e2]; [| exfalso; apply Hno; by right].
  exists r1, r2. split; [done |]. split; [done |].
  destruct (updateError r2) as [e |] eqn:E2; [| done].
  destruct (String.eqb_spec (code e) "PGRST116") as [-> | Hne]; [done |].
  exfalso. apply Hno. right. by exists e.
Qed.

Lemma checkSyncNeeded_fallback now w :
  healthy w ->
  (fst (checkSyncNeeded (mkVersion 0 (toISOString now) now) w) =
     Returned no_change /\
   exists lv, local_version w = Some lv /\ business_count lv = 0 /\
              last_updated lv = toISOString now)
  \/
  (fst (checkSyncNeeded (mkVersion 0 (toISOString now) now) w) =
     Returned full_sync /\
   stale (local_version w) (mkVersion 0 (toISOString now) now)).
Proof.
  intros H. rewrite checkSyncNeeded_run.
  unfold getLocalVersion. rewrite getMetadata_ok by done. cbn [fst].
  fold (local_version w).
  destruct (local_version w) as [lv |]; [| by right].
  cbn [decide_sync stale business_count last_updated].
  destruct (Z.eqb_spec (business_count lv) 0) as [E0 | E0];
    [| right; split; [done | by left]].
  destruct (String.eqb_spec (last_updated lv) (toISOString now)) as [E1 | E1];
    [| right; split; [done | by right]].
  left. split; [done |]. by exists lv.
Qed.

(** C9. [getDataVersion] never throws, and neither does the accessor
    handed to the reconciler.  When the count query throws or resolves
    with an error, or the most-recent-timestamp query throws or resolves
    with an error other than [PGRST116], both return the descriptor with
    [business_count = 0] and [last_updated] the current time.  A
    [PGRST116] answer of the timestamp query is accepted: the count
    obtained is kept.  Against the fallback descriptor [checkSyncNeeded]
    answers [full_sync] unless the stored descriptor records the count 0
    and that very [last_updated], whatever is cached; in particular after
    a full sync made through a fallback descriptor, which stores the
    count 0 beside whatever was fetched, a failure at a later time that
    prints differently asks for a full sync again. *)
Theorem getDataVersion_never_throws
    (countQuery : outcome CountResponse) (updatedQuery : outcome RowResponse)
    (now : Z) :
  let fallback := mkVersion 0 (toISOString now) now in
  (exists v,
     getDataVersion toISOString countQuery updatedQuery now = Returned v /\
     fetchRemoteVersion toISOString countQuery updatedQuery now =
       Returned (mkVersion (business_count v) (last_updated v) now)) /\
  (count_failed countQuery \/ updated_failed updatedQuery ->
   getDataVersion toISOString countQuery updatedQuery now =
     Returned fallback /\
   fetchRemoteVersion toISOString countQuery updatedQuery now =
     Returned fallback) /\
  (forall r1 r2 e,
     countQuery = Returned r1 -> countError r1 = None ->
     updatedQuery = Returned r2 -> updateError r2 = Some e ->
     code e = "PGRST116" ->
     getDataVersion toISOString countQuery updatedQuery now =
       Returned (mkVersion (count_or_zero (count r1))
                   (updated_at_or (data r2) (toISOString now)) now)) /\
  (forall w : World,
     healthy w ->
     (fst (checkSyncNeeded fallback w) = Returned no_change /\
      exists lv, local_version w = Some lv /\ business_count lv = 0 /\
                 last_updated lv = toISOString now)
     \/
     (fst (checkSyncNeeded fallback w) = Returned full_sync /\
      stale (local_version w) fallback)) /\
  (forall (earlier : Z) (data : AllData) (w : World),
     healthy w ->
     stale (local_version w) (mkVersion 0 (toISOString earlier) earlier) ->
     toISOString now <> toISOString earlier ->
     let w1 := snd (smartSync
                      (Returned (mkVersion 0 (toISOString earlier) earlier))
                      (Returned data) w) in
     (exists lv, local_version w1 = Some lv /\ business_count lv = 0) /\
     fst (checkSyncNeeded fallback w1) = Returned full_sync).
Proof.
  intros fallback.
  split; [| split; [| split; [| split]]].
  - destruct (getDataVersion_returns countQuery updatedQuery now)
      as [v Hv].
    exists v. split; [exact Hv |]. unfold fetchRemoteVersion. by rewrite Hv.
  - intros Hfail.
    pose proof (getDataVersion_fallback _ _ now Hfail) as E.
    split; [exact E |]. unfold fetchRemoteVersion. by rewrite E.
  - intros r1 r2 e -> E1 -> E2 Ec.
    destruct (getDataVersion_resolved (Returned r1) (Returned r2) now)
      as (r1' & r2' & [= <-] & [= <-] & E); [| exact E].
    unfold count_failed, updated_failed. intros [Hc | (e' & He' & Hne)].
    + by rewrite E1 in Hc.
    + rewrite E2 in He'. injection He' as <-. by rewrite Ec in Hne.
  - intros w H. by apply checkSyncNeeded_fallback.
  - intros earlier data w H Hst Hne w1.
    destruct (smartSync_stale_run _ data w H Hst)
      as (w' & Hs & Hf & _ & _ & _ & Hv).
    assert (Ew : w1 = w') by (subst w1; by rewrite Hs). rewrite Ew.
    cbn [business_count last_updated] in Hv.
    split; [by eexists |].
    destruct (checkSyncNeeded_fallback now w') as [(_ & lv & Hlv & _ & Hl) | [E _]];
      [by apply (healthy_same w) | | exact E].
    rewrite Hv in Hlv. injection Hlv as <-. cbn in Hl. by rewrite Hl in Hne.
Qed.

End GetDataVersion.

Lemma getDataVersion_never_throws_witness :
  getDataVersion iso_of_millis (Threw (RemoteError "Failed to fetch"))
    (Returned (mkRowResponse None None)) 1700000000000 =
  Returned (mkVersion 0 "2023-11-14T22:13:20.000Z" 1700000000000) /\
  fst (checkSyncNeeded
         (mkVersion 0 "2023-11-14T22:13:20.000Z" 1700000000000)
         synced_store) = Returned full_sync.
Proof.
  destruct (getDataVersion_never_throws iso_of_millis
              (Threw (RemoteError "Failed to fetch"))
              (Returned (mkRowResponse None None)) 1700000000000)
    as (_ & Hfail & _ & Hsync & _).
  destruct Hfail as (Hv & _); [left; exact I |].
  split; [exact Hv |].
  destruct (Hsync synced_store synced_store_healthy)
    as [(_ & lv & Hlv & Hc & _) | [E _]]; [| exact E].
  vm_compute in Hlv. injection Hlv as <-. discriminate Hc.
Defined.

(** C9, as stated, fails for a failure of the timestamp query that the
    code accepts: with the count query answering 5 and the timestamp
    query resolving with the error [PGRST116], the descriptor returned
    records the count 5, not 0. *)
Lemma getDataVersion_no_rows_keeps_count :
  getDataVersion iso_of_millis
    (Returned (mkCountResponse (Some 5) None))
    (Returned (mkRowResponse None (Some (mkPgError "PGRST116" "no rows"))))
    1700000000000 =
  Returned (mkVersion 5 "2023-11-14T22:13:20.000Z" 1700000000000).
Proof. reflexivity. Qed.

(** ** Conversions between rows and businesses *)

Lemma normalised_idempotent b : normalised (normalised b) = normalised b.
Proof.
  unfold normalised. cbn.
  by destruct (homeDelivery b) as [[] |].
Qed.

Lemma dbBusinessToBusiness_normalised row :
  normalised (dbBusinessToBusiness row) = dbBusinessToBusiness row.
Proof.
  unfold normalised, dbBusinessToBusiness. cbn.
  by destruct (home_delivery row) as [[] |].
Qed.

(** X9. Saving a business and reading back the stored row returns the
    business with a missing [services] or [paymentOptions] as the empty
    list and a missing [homeDelivery] as [false], and nothing else
    changed.  A business saved with an empty identifier is inserted
    without an [id] column and comes back under the identifier of the
    stored row.  What [dbBusinessToBusiness] produces is already in that
    form. *)
Theorem save_then_read_back_normalises (b : Business) (row : DbBusiness) :
  (echoes (businessToDbBusiness b) row ->
   written_business (Returned (mkRowsResponse (Some row) None)) =
     Returned (normalised b)) /\
  (business_id b = "" ->
   echoes (addBusiness_row b) row ->
   p_id (addBusiness_row b) = None /\
   written_business (Returned (mkRowsResponse (Some row) None)) =
     Returned (normalised (with_id (db_id row) b))) /\
  normalised (dbBusinessToBusiness row) = dbBusinessToBusiness row /\
  normalised (normalised b) = normalised b.
Proof.
  split; [| split; [| split]].
  - intros (Hid & Hc & Hs & Ho & Hn & Ha & Hh & Hsv & Hd & Hp).
    cbn in *. unfold dbBusinessToBusiness, normalised.
    rewrite (Hid _ eq_refl), <- Ha, <- Hh, <- Hsv, <- Hd, <- Hp.
    injection Hc as <-. injection Hs as <-. injection Ho as <-.
    injection Hn as <-. cbn. by destruct (homeDelivery b) as [[] |].
  - intros Hempty. unfold addBusiness_row. cbn [businessToDbBusiness p_id].
    rewrite Hempty. cbn.
    intros (_ & Hc & Hs & Ho & Hn & Ha & Hh & Hsv & Hd & Hp).
    split; [done |]. cbn in *. unfold dbBusinessToBusiness, normalised.
    rewrite <- Ha, <- Hh, <- Hsv, <- Hd, <- Hp. cbn.
    injection Hc as <-. injection Hs as <-. injection Ho as <-.
    injection Hn as <-. by destruct (homeDelivery b) as [[] |].
  - apply dbBusinessToBusiness_normalised.
  - apply normalised_idempotent.
Qed.

Lemma save_then_read_back_normalises_witness :
  written_business
    (Returned (mkRowsResponse
       (Some (mkDbBusiness "b1" "grocery" "Shop b1" "Owner" "9999999999"
                None None (Some []) (Some false) (Some [])
                (Some "2024-01-01") (Some "2024-01-02") None None)) None)) =
  Returned (normalised (shop "b1")).
Proof.
  apply (proj1 (save_then_read_back_normalises (shop "b1")
    (mkDbBusiness "b1" "grocery" "Shop b1" "Owner" "9999999999"
       None None (Some []) (Some false) (Some [])
       (Some "2024-01-01") (Some "2024-01-02") None None))).
  unfold echoes. cbn. repeat split. by intros i [= <-].
Defined.

Lemma fetchBusinesses_normalised q bs :
  fetchBusinesses q = Returned bs -> Forall (fun b => normalised b = b) bs.
Proof.
  unfold fetchBusinesses, obind, throw_api.
  destruct q as [r | e]; [| done]. destruct (rowsError r); [done |].
  intros [= <-]. apply Forall_forall. intros b Hb.
  apply list_elem_of_In, in_map_iff in Hb as (row & <- & _).
  apply dbBusinessToBusiness_normalised.
Qed.

(** X10. The heavy accessor of the application returns exactly when both
    list queries resolve without an error; what it returns then holds one
    business per row, in row order, each with [services], [homeDelivery]
    and [paymentOptions] defined, and a full sync through it caches only
    such businesses. *)
Theorem fetchAllData_rows
    (qc : outcome (RowsResponse (list Category)))
    (qb : outcome (RowsResponse (list DbBusiness))) :
  ((exists data, fetchAllData qc qb = Returned data) <->
   (exists rc rb, qc = Returned rc /\ qb = Returned rb /\
                  rowsError rc = None /\ rowsError rb = None)) /\
  (forall data,
     fetchAllData qc qb = Returned data ->
     Forall (fun b => normalised b = b) (data_businesses data) /\
     (exists rb, qb = Returned rb /\
        map business_id (data_businesses data) =
        map db_id (array_or (rows rb) [])) /\
     forall remote w,
       healthy w -> stale (local_version w) remote ->
       forall x,
         x ∈ cached_list
               (businesses
                  (snd (smartSync (Returned remote) (Returned data) w))) ->
         normalised x = x).
Proof.
  split.
  - unfold fetchAllData, fetchCategories, fetchBusinesses, obind, throw_api.
    split.
    + destruct qc as [rc | e]; [| by intros [? ?]].
      destruct (rowsError rc) eqn:Ec; [by intros [? ?] |].
      destruct qb as [rb | e]; [| by intros [? ?]].
      destruct (rowsError rb) eqn:Eb; [by intros [? ?] |].
      intros _. by exists rc, rb.
    + intros (rc & rb & -> & -> & -> & ->). eauto.
  - intros data Hdata.
    assert (Hb : exists rb, qb = Returned rb /\
                   fetchBusinesses qb = Returned (data_businesses data)).
    { revert Hdata. unfold fetchAllData.
      destruct (fetchCategories qc) as [cs | e]; [| done].
      destruct (fetchBusinesses qb) as [bs | e] eqn:E; [| done].
      intros [= <-]. destruct qb as [rb | e]; [eauto | done]. }
    destruct Hb as (rb & -> & Hfetch).
    pose proof (fetchBusinesses_normalised _ _ Hfetch) as Hnorm.
    split; [exact Hnorm |]. split.
    + exists rb. split; [done |]. revert Hfetch.
      unfold fetchBusinesses, obind, throw_api.
      destruct (rowsError rb); [done |]. intros [= <-].
      rewrite map_map. done.
    + intros remote w H Hstale x Hx.
      destruct (smartSync_stale_run remote data w H Hstale)
        as (w' & Hs & _ & _ & Hbs & _).
      rewrite Hs in Hx. cbn [snd] in Hx. rewrite Hbs in Hx.
      apply elem_of_cached_list in Hx as (k & c & Hk & <-).
      apply put_loop_lookup in Hk as [(b & Hin & _ & ->) | Hk];
        [| by rewrite lookup_empty in Hk].
      cbn [cached]. rewrite Forall_forall in Hnorm. by apply Hnorm.
Qed.

Lemma fetchAllData_rows_witness :
  Forall (fun b => normalised b = b)
    [dbBusinessToBusiness
       (mkDbBusiness "b1" "grocery" "Shop b1" "Owner" "9999999999"
          None None None None None None None None None)].
Proof.
  apply (proj2 (fetchAllData_rows
    (Returned (mkRowsResponse (Some [grocery]) None))
    (Returned (mkRowsResponse
       (Some [mkDbBusiness "b1" "grocery" "Shop b1" "Owner" "9999999999"
                None None None None None None None None None]) None)))
    (mkAllData
       [dbBusinessToBusiness
          (mkDbBusiness "b1" "grocery" "Shop b1" "Owner" "9999999999"
             None None None None None None None None None)] [grocery])).
  reflexivity.
Defined.

(** ** Signing in *)

Lemma not_admin_isUserAdmin a : not_admin a = negb (isUserAdmin a).
Proof.
  unfold not_admin, isUserAdmin.
  by destruct (adminError a), (adminProfile a).
Qed.

(** X11. [signIn] returns a user only together with the admin profile
    found for that user's identifier, having made the password sign-in
    and the profile lookup and no sign-out.  When the password is
    accepted but the lookup gives an error or no profile, the very check
    [isUserAdmin] makes, it signs the user out again and throws, the
    authorization error unless the sign-out itself threw.  A sign-out is
    only ever made on a path that throws. *)
Theorem signIn_admits_admins_only
    (email password : string) (pw : outcome PasswordResponse)
    (lookup : string -> outcome AdminResponse) (signedOut : outcome unit) :
  let out := signIn email password pw lookup signedOut in
  (forall user profile,
     fst out = Returned (user, profile) ->
     (exists r, pw = Returned r /\ pw_error r = None /\
                pw_user r = Some user) /\
     (exists a, lookup (user_id user) = Returned a /\
                adminProfile a = Some profile /\ isUserAdmin a = true) /\
     snd out = [SignInWithPassword email password;
                SelectAdminProfile (user_id user)]) /\
  (forall r user a,
     pw = Returned r -> pw_error r = None -> pw_user r = Some user ->
     lookup (user_id user) = Returned a -> isUserAdmin a = false ->
     snd out = [SignInWithPassword email password;
                SelectAdminProfile (user_id user); AuthSignOut] /\
     (fst out = Threw (RemoteError "You are not authorized as an admin") \/
      exists e, signedOut = Threw e /\ fst out = Threw e)) /\
  (AuthSignOut ∈ snd out -> exists e, fst out = Threw e).
Proof.
  cbn zeta. unfold signIn. split; [| split].
  - intros user profile.
    destruct pw as [r | e]; [| done].
    destruct (pw_error r) eqn:Ee; [done |].
    destruct (pw_user r) as [u |] eqn:Eu; [| done].
    destruct (lookup (user_id u)) as [a | e] eqn:El; [| done].
    rewrite not_admin_isUserAdmin.
    destruct (isUserAdmin a) eqn:Ea; cbn [negb].
    + destruct (adminProfile a) as [p |] eqn:Ep; [| done].
      cbn [fst snd]. intros [= <- <-]. split; [eauto |]. split; [| done].
      exists a. by rewrite El.
    + by destruct signedOut.
  - intros r user a -> -> -> -> Ha. rewrite not_admin_isUserAdmin, Ha.
    cbn [negb]. destruct signedOut as [[] | e]; cbn [fst snd]; eauto.
  - destruct pw as [r | e];
      [| intros Hin; apply list_elem_of_singleton in Hin; done].
    destruct (pw_error r);
      [intros Hin; apply list_elem_of_singleton in Hin; done |].
    destruct (pw_user r) as [u |];
      [| intros Hin; apply list_elem_of_singleton in Hin; done].
    destruct (lookup (user_id u)) as [a | e]; [| cbn [fst]; eauto].
    destruct (not_admin a).
    + destruct signedOut; cbn [fst]; eauto.
    + destruct (adminProfile a); cbn [fst snd]; [| unfold type_error; eauto].
      intros Hin. apply elem_of_cons in Hin as [Hin | Hin]; [done |].
      by apply list_elem_of_singleton in Hin.
Qed.

Lemma signIn_admits_admins_only_witness :
  signIn "guest@example.org" "secret"
    (Returned (mkPasswordResponse
                 (Some (mkUser "u7" "guest@example.org")) None))
    (fun _ => Returned (mkAdminResponse None
                          (Some (mkPgError "PGRST116" "no rows"))))
    (Returned tt) =
  (Threw (RemoteError "You are not authorized as an admin"),
   [SignInWithPassword "guest@example.org" "secret";
    SelectAdminProfile "u7"; AuthSignOut]).
Proof.
  destruct (proj1 (proj2 (signIn_admits_admins_only
    "guest@example.org" "secret"
    (Returned (mkPasswordResponse
                 (Some (mkUser "u7" "guest@example.org")) None))
    (fun _ => Returned (mkAdminResponse None
                          (Some (mkPgError "PGRST116" "no rows"))))
    (Returned tt)))
    (mkPasswordResponse (Some (mkUser "u7" "guest@example.org")) None)
    (mkUser "u7" "guest@example.org")
    (mkAdminResponse None (Some (mkPgError "PGRST116" "no rows")))
    eq_refl eq_refl eq_refl eq_refl eq_refl) as [Hcalls _].
  reflexivity.
Defined.

(** ** Version descriptors of a table without a usable timestamp *)

Section Timestamps.

Variable toISOString : Z -> string.

Lemma newest_timestamp_used r2 s fallback :
  newest_timestamp (Returned r2) = Some s ->
  updated_at_or (data r2) fallback = s.
Proof.
  unfold newest_timestamp, updated_at_or.
  destruct (data r2) as [[[s' |]] |]; [| done | done].
  destruct (String.eqb s' ""); [done |]. by intros [= ->].
Qed.

Lemma getDataVersion_last_updated countQuery updatedQuery now v :
  getDataVersion toISOString countQuery updatedQuery now = Returned v ->
  (last_updated v = toISOString now /\ last_sync v = now) \/
  (exists r1 s,
     countQuery = Returned r1 /\ newest_timestamp updatedQuery = Some s /\
     v = mkVersion (count_or_zero (count r1)) s now).
Proof.
  unfold getDataVersion, otry, obind, throw_api, newest_timestamp,
    updated_at_or.
  destruct countQuery as [r1 | e1]; [| intros [= <-]; by left].
  destruct (countError r1); [intros [= <-]; by left |].
  destruct updatedQuery as [r2 | e2]; [| intros [= <-]; by left].
  assert (Hv : Returned
      (mkVersion (count_or_zero (count r1))
         match data r2 with
         | Some (mkRow (Some s)) =>
             if String.eqb s "" then toISOString now else s
         | _ => toISOString now
         end now) = Returned v ->
    (last_updated v = toISOString now /\ last_sync v = now) \/
    (exists r1' s,
       Returned r1 = Returned r1' /\
       match data r2 with
       | Some (mkRow (Some s)) => if String.eqb s "" then None else Some s
       | _ => None
       end = Some s /\
       v = mkVersion (count_or_zero (count r1')) s now)).
  { intros [= <-]. destruct (data r2) as [[[s |]] |]; [| by left | by left].
    destruct (String.eqb s ""); [by left |]. right. by exists r1, s. }
  destruct (updateError r2) as [e |]; [| exact Hv].
  destruct (negb _); [intros [= <-]; by left | exact Hv].
Qed.

(** X12. Without a usable newest timestamp (an empty table, a null or
    empty [updated_at], or a failed query) [getDataVersion] puts the time
    of the call into [last_updated]: two calls at times that print
    differently give descriptors that [checkSyncNeeded] tells apart, so
    every check asks for a full sync.  With a timestamp and the same
    count, the descriptors of two calls match and the check answers
    [no_change]. *)
Theorem getDataVersion_without_timestamp_always_stale
    (countQuery : outcome CountResponse) (updatedQuery : outcome RowResponse)
    (t1 t2 : Z) (v1 v2 : DataVersion) :
  getDataVersion toISOString countQuery updatedQuery t1 = Returned v1 ->
  getDataVersion toISOString countQuery updatedQuery t2 = Returned v2 ->
  (newest_timestamp updatedQuery = None ->
   toISOString t1 <> toISOString t2 ->
   decide_sync (Some v1) v2 = full_sync) /\
  (forall s,
     newest_timestamp updatedQuery = Some s ->
     count_failed countQuery \/ updated_failed updatedQuery \/
     decide_sync (Some v1) v2 = no_change).
Proof.
  intros H1 H2. split.
  - intros Hnone Hne.
    apply getDataVersion_last_updated in H1 as [[E1 _] | (r1 & s & _ & Hs & _)];
      [| by rewrite Hnone in Hs].
    apply getDataVersion_last_updated in H2 as [[E2 _] | (r1 & s & _ & Hs & _)];
      [| by rewrite Hnone in Hs].
    apply decide_sync_stale. right. by rewrite E1, E2.
  - intros s Hs.
    destruct countQuery as [r1 | e1]; [| by left].
    destruct (countError r1) as [ce |] eqn:Ec;
      [left; cbn; by rewrite Ec |].
    destruct updatedQuery as [r2 | e2]; [| right; by left].
    destruct (updateError r2) as [ue |] eqn:Eu.
    + destruct (String.eqb_spec (code ue) "PGRST116") as [Ecode | Ecode].
      * right. right. revert H1 H2.
        unfold getDataVersion, otry, obind. rewrite Ec, Eu, Ecode. cbn.
        intros [= <-] [= <-]. apply decide_sync_fresh; [done |].
        cbn [last_updated]. by rewrite !(newest_timestamp_used _ _ _ Hs).
      * right. left. cbn. eauto.
    + right. right. revert H1 H2.
      unfold getDataVersion, otry, obind. rewrite Ec, Eu.
      intros [= <-] [= <-]. apply decide_sync_fresh; [done |].
      cbn [last_updated]. by rewrite !(newest_timestamp_used _ _ _ Hs).
Qed.

End Timestamps.

Lemma getDataVersion_without_timestamp_always_stale_witness :
  decide_sync
    (Some (mkVersion 0 "2023-11-14T22:13:20.000Z" 1700000000000))
    (mkVersion 0 "" 1700000060000) = full_sync.
Proof.
  apply (proj1 (getDataVersion_without_timestamp_always_stale iso_of_millis
    (Returned (mkCountResponse (Some 0) None))
    (Returned (mkRowResponse None (Some (mkPgError "PGRST116" "no rows"))))
    1700000000000 1700000060000 _ _ eq_refl eq_refl)).
  - reflexivity.
  - discriminate.
Defined.

End RemoteFacts.

(** * Part II: properties of the tracking service *)

Module TrackingFacts.

Import Tracking.

Ltac tsimpl :=
  cbn [eventQueue flushTimeout timers nextHandle flights network
       lastActivity isTabActive now
       set_eventQueue set_flushTimeout set_timers set_nextHandle set_flights
       send set_lastActivity set_isTabActive set_now fst snd].

(** ** Disabled analytics *)

Lemma queueEvent_disabled t d s : queueEvent false t d s = s.
Proof. reflexivity. Qed.

Lemma flushEvents_disabled s : flushEvents false s = s.
Proof. unfold flushEvents. cbn [negb]. by rewrite orb_true_r. Qed.

Lemma step_disabled_idle s a : idle s -> idle (step false s a).
Proof.
  intros Hs. pose proof Hs as (Hq & Hf & Ht & Hfl & Hn).
  destruct a as [t d | h | | i r | dv u | | hidden | dt]; cbn [step].
  - exact Hs.
  - unfold fire. rewrite Ht. exact Hs.
  - by rewrite flushEvents_disabled.
  - unfold settle. rewrite Hfl. exact Hs.
  - unfold sendPing. rewrite orb_true_r. exact Hs.
  - exact Hs.
  - unfold onVisibilityChange. tsimpl. destruct (negb hidden); exact Hs.
  - exact Hs.
Qed.

Lemma run_disabled_idle acts s : idle s -> idle (run false acts s).
Proof.
  revert s. induction acts as [| a acts IH]; intros s Hs; [done |].
  cbn [run fold_left]. apply IH. by apply step_disabled_idle.
Qed.

(** C7. With analytics not enabled, [queueEvent] returns the state it was
    given, and after any interleaving of tracking calls with timer,
    unload, presence and clock events the queue has length zero and no
    flush timer was scheduled. *)
Theorem queueEvent_disabled_no_op :
  (forall t d s, queueEvent false t d s = s) /\
  (forall t0 acts,
     let s := run false acts (init t0) in
     length (eventQueue s) = 0%nat /\ timers s = [] /\
     flushTimeout s = None /\ flights s = [] /\ network s = []).
Proof.
  split; [exact queueEvent_disabled |].
  intros t0 acts s.
  destruct (run_disabled_idle acts (init t0)) as (Hq & Hf & Ht & Hfl & Hn);
    [by repeat split |].
  subst s. by rewrite Hq.
Qed.

(** ** Presence pings *)

Lemma sendPing_sent_or_idle
    (isAnalyticsEnabled : bool) (deviceId : string)
    (userName : option string) (s : State) :
  sendPing isAnalyticsEnabled deviceId userName s =
    send [Upsert "live_users" deviceId userName true (now s) "device_id"] s
  \/ sendPing isAnalyticsEnabled deviceId userName s = s.
Proof.
  unfold sendPing, has_client, analyticsClient.
  destruct isAnalyticsEnabled; cbn [negb orb];
    [| right; by rewrite orb_true_r].
  destruct (negb (isTabActive s) ||
            Z.ltb MIN_ACTIVITY_GAP (now s - lastActivity s) || false);
    [by right | by left].
Qed.

(** [sendPing] on the module variables: it sends its upsert exactly when
    analytics is enabled, [isTabActive] holds and [lastActivity] is at
    most [MIN_ACTIVITY_GAP] old. *)
Lemma sendPing_cases
    (isAnalyticsEnabled : bool) (deviceId : string)
    (userName : option string) (s : State) :
  (isAnalyticsEnabled = true /\ isTabActive s = true /\
   now s - lastActivity s <= 10000 /\
   sendPing isAnalyticsEnabled deviceId userName s =
     send [Upsert "live_users" deviceId userName true (now s) "device_id"] s)
  \/
  (~ (isAnalyticsEnabled = true /\ isTabActive s = true /\
      now s - lastActivity s <= 10000) /\
   sendPing isAnalyticsEnabled deviceId userName s = s).
Proof.
  unfold sendPing, has_client, analyticsClient, MIN_ACTIVITY_GAP.
  destruct isAnalyticsEnabled; cbn [negb orb];
    [| right; split; [intros (? & _); done | by rewrite orb_true_r]].
  destruct (isTabActive s); cbn [negb orb];
    [| right; split; [intros (_ & ? & _); done | done]].
  rewrite orb_false_r.
  destruct (Z.ltb_spec 10000 (now s - lastActivity s)).
  - right. split; [intros (_ & _ & ?); lia | done].
  - left. by repeat split.
Qed.

(** What [sendPing] consults is kept by the listeners: after a
    [visibilitychange] the flag is the negation of [document.hidden], and
    an interaction or a return to the tab stamps [lastActivity]. *)
Lemma listeners_track hidden s :
  isTabActive (onVisibilityChange hidden s) = negb hidden /\
  lastActivity (onVisibilityChange false s) = now s /\
  lastActivity (onActivity s) = now s.
Proof. unfold onVisibilityChange, onActivity. tsimpl. by destruct hidden. Qed.

(** *** What the variables hold after a run *)

Lemma flushEvents_presence e s : same_presence s (flushEvents e s).
Proof.
  unfold flushEvents, same_presence. destruct (_ || _); [done |].
  by destruct (safeAnalyticsOperation_flush e (eventQueue s)).
Qed.

Lemma scheduleFlush_presence s : same_presence s (scheduleFlush s).
Proof. unfold scheduleFlush, same_presence. by destruct (flushTimeout s). Qed.

Lemma queueEvent_presence e t d s : same_presence s (queueEvent e t d s).
Proof.
  unfold queueEvent. destruct (negb e); [done |].
  destruct (Nat.leb _ _).
  - apply (flushEvents_presence e (set_eventQueue _ s)).
  - apply (scheduleFlush_presence (set_eventQueue _ s)).
Qed.

Lemma fire_presence e h s : same_presence s (fire e h s).
Proof.
  unfold fire. destruct (find _ _) as [[h' due] |]; [| done].
  destruct (Z.leb due (now s)); [| done].
  apply (flushEvents_presence e (clearTimeout h s)).
Qed.

Lemma settle_presence e i r s : same_presence s (settle e i r s).
Proof.
  unfold settle, same_presence. destruct (flights s !! i) as [f |]; [| done].
  destruct (awaiting f); [| | | done];
    destruct r;
    repeat match goal with
    | |- context [let (_, _) := ?p in _] => destruct p
    end; done.
Qed.

Lemma sendPing_presence e d u s : same_presence s (sendPing e d u s).
Proof.
  destruct (sendPing_sent_or_idle e d u s) as [-> | ->]; done.
Qed.

Lemma run_presence e acts s :
  now (run e acts s) = time_after (now s) acts /\
  isTabActive (run e acts s) = tracked_visible (isTabActive s) acts /\
  lastActivity (run e acts s) = last_stamp (now s) (lastActivity s) acts.
Proof.
  revert s. induction acts as [| a acts IH]; intros s; [done |].
  cbn [run fold_left]. fold (run e acts (step e s a)).
  destruct (IH (step e s a)) as (-> & -> & ->).
  destruct a as [t d | h | | i r | dv u | | hidden | dt];
    cbn [step time_after tracked_visible last_stamp].
  - by destruct (queueEvent_presence e t d s) as (-> & -> & ->).
  - by destruct (fire_presence e h s) as (-> & -> & ->).
  - by destruct (flushEvents_presence e s) as (-> & -> & ->).
  - by destruct (settle_presence e i r s) as (-> & -> & ->).
  - by destruct (sendPing_presence e dv u s) as (-> & -> & ->).
  - done.
  - unfold onVisibilityChange. tsimpl. by destruct hidden.
  - done.
Qed.

(** C8. After any history of tracking calls, timers, settling inserts,
    pings, interaction events, visibility changes and elapsing time since
    the module was loaded, [sendPing] issues its upsert keyed by the
    device identifier, and nothing else, exactly when analytics is
    enabled, the tab counts as visible (visible from the load on, then
    what the last [visibilitychange] event reported) and the latest of
    the load, an interaction event and a return to the tab is at most
    10 seconds old; in every other case it leaves the state, network log
    included, untouched. *)
Theorem sendPing_upsert_iff
    (isAnalyticsEnabled : bool) (deviceId : string)
    (userName : option string) (t0 : Z) (acts : list Action) :
  let s := run isAnalyticsEnabled acts (init t0) in
  let t := time_after t0 acts in
  let upsert := Upsert "live_users" deviceId userName true t "device_id" in
  (isAnalyticsEnabled = true /\
   tracked_visible true acts = true /\
   t - last_stamp t0 t0 acts <= 10000 /\
   sendPing isAnalyticsEnabled deviceId userName s = send [upsert] s /\
   network (sendPing isAnalyticsEnabled deviceId userName s) =
     network s ++ [upsert])
  \/
  (~ (isAnalyticsEnabled = true /\
      tracked_visible true acts = true /\
      t - last_stamp t0 t0 acts <= 10000) /\
   sendPing isAnalyticsEnabled deviceId userName s = s).
Proof.
  intros s t upsert.
  destruct (run_presence isAnalyticsEnabled acts (init t0))
    as (Hn & Hv & Hl).
  fold s in Hn, Hv, Hl. cbn [init now isTabActive lastActivity] in Hn, Hv, Hl.
  fold t in Hn.
  destruct (sendPing_cases isAnalyticsEnabled deviceId userName s)
    as [(He & Ha & Hr & Hs) | (Hno & Hs)];
    rewrite Hn, Hv, Hl in *.
  - left. repeat split; try done. by rewrite Hs.
  - right. by split.
Qed.

(** C8, as stated, fails: the upsert does not wait for a user
    interaction within the last 10 seconds.  With the only interaction 13
    seconds back, a ping right after the user returned to the tab is
    sent, because the return itself stamps [lastActivity]; and with no
    interaction at all, a ping 3 seconds after the load is sent, because
    [lastActivity] starts at the load time. *)
Lemma ping_without_recent_interaction :
  let acts := [Activity; Elapse 4000; Elapse 4000; Elapse 4000;
               VisibilityChange true; Elapse 1000;
               VisibilityChange false] in
  last_interaction 0 None acts = Some 0 /\
  time_after 0 acts = 13000 /\
  network (run true (acts ++ [Ping "device_1" None]) (init 0)) =
    [Upsert "live_users" "device_1" None true 13000 "device_id"] /\
  last_interaction 0 None [Elapse 3000] = None /\
  network (run true [Elapse 3000; Ping "device_1" None] (init 0)) =
    [Upsert "live_users" "device_1" None true 3000 "device_id"].
Proof. vm_compute. by repeat split. Qed.

(** ** The flush timer *)

Lemma scheduleFlush_keeps s :
  eventQueue (scheduleFlush s) = eventQueue s /\
  flights (scheduleFlush s) = flights s.
Proof. unfold scheduleFlush. by destruct (flushTimeout s). Qed.

Lemma scheduleFlush_one_timer s queued :
  timer_state s queued ->
  timers (scheduleFlush s) = [(nextHandle s, now s + FLUSH_INTERVAL)] /\
  flushTimeout (scheduleFlush s) = Some (nextHandle s) /\
  nextHandle (scheduleFlush s) = S (nextHandle s).
Proof.
  unfold timer_state, scheduleFlush.
  destruct queued as [| e q].
  - intros [Ht ->]. unfold setTimeout. tsimpl. by rewrite Ht.
  - intros (h & due & Ht & -> & _). unfold setTimeout, clearTimeout. tsimpl.
    rewrite Ht. cbn [List.filter fst]. by rewrite Nat.eqb_refl.
Qed.

Lemma timer_state_snoc s q e :
  (exists h due, timers s = [(h, due)] /\ flushTimeout s = Some h /\
                 (h < nextHandle s)%nat) ->
  timer_state s (q ++ [e]).
Proof. by destruct q. Qed.

Lemma timer_state_old_handles s queued h due :
  timer_state s queued -> (h, due) ∈ timers s -> (h < nextHandle s)%nat.
Proof.
  unfold timer_state. destruct queued as [| e q].
  - intros [-> _] Hin. by apply not_elem_of_nil in Hin.
  - intros (h' & due' & -> & _ & Hlt) Hin.
    apply list_elem_of_singleton in Hin. by injection Hin as -> ->.
Qed.

Lemma enqueued_snoc acts a :
  enqueued (acts ++ [a]) =
  enqueued acts ++ match a with Enqueue t d => [mkEvent t d] | _ => [] end.
Proof.
  induction acts as [| b acts IH].
  - by destruct a.
  - destruct b; cbn [app enqueued]; by rewrite IH.
Qed.

Lemma run_snoc e acts a s : run e (acts ++ [a]) s = step e (run e acts s) a.
Proof. unfold run. by rewrite fold_left_app. Qed.

(** One tracking call below the size threshold. *)
Lemma queueEvent_below_threshold t d s queued :
  eventQueue s = queued ->
  (length queued + 1 < MAX_QUEUE_SIZE)%nat ->
  timer_state s queued ->
  let s' := queueEvent true t d s in
  eventQueue s' = queued ++ [mkEvent t d] /\
  flights s' = flights s /\
  timers s' = [(nextHandle s, now s + FLUSH_INTERVAL)] /\
  flushTimeout s' = Some (nextHandle s) /\
  nextHandle s' = S (nextHandle s).
Proof.
  intros Hqueue Hn Ht. cbn zeta. unfold queueEvent. cbn [negb].
  set (s1 := set_eventQueue (eventQueue s ++ [mkEvent t d]) s).
  assert (Hlen : Nat.leb MAX_QUEUE_SIZE (length (eventQueue s1)) = false).
  { apply Nat.leb_gt. subst s1. tsimpl. rewrite Hqueue, length_app.
    exact Hn. }
  rewrite Hlen.
  destruct (scheduleFlush_keeps s1) as [Eq Ef].
  destruct (scheduleFlush_one_timer s1 queued Ht) as (Et & Eh & En).
  rewrite Eq, Ef, Et, Eh, En. subst s1. tsimpl. by rewrite Hqueue.
Qed.

(** The tracking call that reaches the size threshold. *)
Lemma queueEvent_at_threshold t d s queued :
  eventQueue s = queued ->
  (length queued + 1 = MAX_QUEUE_SIZE)%nat ->
  let s' := queueEvent true t d s in
  eventQueue s' = [] /\
  batches s' = batches s ++ [queued ++ [mkEvent t d]] /\
  timers s' = timers s /\ flushTimeout s' = flushTimeout s.
Proof.
  intros Hqueue Hn. cbn zeta. unfold queueEvent. cbn [negb].
  set (s1 := set_eventQueue (eventQueue s ++ [mkEvent t d]) s).
  assert (Hlen : length (eventQueue s1) = MAX_QUEUE_SIZE).
  { subst s1. tsimpl. by rewrite Hqueue, length_app. }
  rewrite Hlen. cbn [MAX_QUEUE_SIZE Nat.leb]. unfold flushEvents.
  rewrite Hlen. cbn [MAX_QUEUE_SIZE Nat.eqb negb orb].
  destruct (safeAnalyticsOperation_flush true (eventQueue s1)) as [st reqs].
  unfold batches. subst s1. tsimpl. rewrite Hqueue, fmap_app. done.
Qed.

Lemma quiet_run_below_threshold t0 acts :
  Forall quiet acts ->
  (length (enqueued acts) < MAX_QUEUE_SIZE)%nat ->
  let s := run true acts (init t0) in
  eventQueue s = enqueued acts /\ flights s = [] /\
  timer_state s (enqueued acts).
Proof.
  induction acts as [| a acts IH] using rev_ind; intros Hq Hn; [done |].
  apply Forall_app in Hq as [Hq Ha]. apply Forall_cons in Ha as [Ha _].
  rewrite enqueued_snoc in *. rewrite length_app in Hn.
  rewrite run_snoc. cbn zeta in IH.
  destruct IH as (Hqueue & Hfl & Ht); [done | lia |].
  set (s := run true acts (init t0)) in *.
  destruct a as [t d | h | | i r | dv u | | hidden | dt];
    cbn [step]; rewrite ?app_nil_r; try done.
  - destruct (queueEvent_below_threshold t d s _ Hqueue Hn Ht)
      as (Eq & Ef & Et & Eh & En).
    split; [done |]. split; [by rewrite Ef |].
    apply timer_state_snoc. exists (nextHandle s), (now s + FLUSH_INTERVAL).
    rewrite En. repeat split; [done | done | lia].
  - unfold settle. by rewrite Hfl.
  - destruct (sendPing_sent_or_idle true dv u s) as [-> | ->];
      done.
  - unfold onVisibilityChange. tsimpl. by destruct (negb hidden).
Qed.

(** C4, as the code has it. With analytics enabled and no timer firing,
    after [n] tracking calls with [1 <= n < 10] exactly one flush timer is
    pending, the one [flushTimeout] refers to: each call below the
    threshold removes the timer pending before it and schedules a fresh
    one, due [FLUSH_INTERVAL] from now.  The tenth call flushes at once:
    the queue is swapped for an empty one and a flush of exactly the ten
    events is under way.  That flush does not touch the timer: the one
    scheduled by the ninth call stays pending. *)
Theorem queueEvent_timer_and_threshold (t0 : Z) (acts : list Action) :
  Forall quiet acts ->
  let s := run true acts (init t0) in
  let n := length (enqueued acts) in
  ((1 <= n < 10)%nat ->
   exists h due,
     timers s = [(h, due)] /\ flushTimeout s = Some h /\
     eventQueue s = enqueued acts /\ flights s = []) /\
  ((n + 1 < 10)%nat ->
   forall t d,
     let s' := queueEvent true t d s in
     timers s' = [(nextHandle s, now s + 5000)] /\
     flushTimeout s' = Some (nextHandle s) /\
     forall h due, (h, due) ∈ timers s -> (h, due) ∉ timers s') /\
  (n = 9%nat ->
   forall t d,
     let s' := queueEvent true t d s in
     eventQueue s' = [] /\
     batches s' = [enqueued acts ++ [mkEvent t d]] /\
     timers s' = timers s /\ flushTimeout s' = flushTimeout s /\
     length (timers s') = 1%nat).
Proof.
  intros Hq s n.
  assert (Hbelow : (n < 10)%nat ->
    eventQueue s = enqueued acts /\ flights s = [] /\
    timer_state s (enqueued acts)).
  { intros Hn. by apply quiet_run_below_threshold. }
  split; [| split].
  - intros Hn. destruct Hbelow as (Hqueue & Hfl & Ht); [lia |].
    unfold timer_state in Ht.
    destruct (enqueued acts) as [| e q] eqn:E; [cbn in n; lia |].
    destruct Ht as (h & due & Ht & Hh & _). by exists h, due.
  - intros Hn t d. destruct Hbelow as (Hqueue & Hfl & Ht); [lia |].
    destruct (queueEvent_below_threshold t d s _ Hqueue) as (_ & _ & Et & Eh & _);
      [unfold MAX_QUEUE_SIZE; fold n; lia | done |].
    cbn zeta. rewrite Et, Eh. split; [done |]. split; [done |].
    intros h due Hin Hin'.
    apply (timer_state_old_handles _ _ _ _ Ht) in Hin.
    apply list_elem_of_singleton in Hin'. injection Hin' as -> _. lia.
  - intros Hn t d. destruct Hbelow as (Hqueue & Hfl & Ht); [lia |].
    destruct (queueEvent_at_threshold t d s _ Hqueue) as (Eq & Eb & Et & Eh);
      [unfold MAX_QUEUE_SIZE; fold n; lia |].
    cbn zeta. rewrite Eq, Eb, Et, Eh. unfold batches. rewrite Hfl.
    repeat split.
    unfold timer_state in Ht.
    destruct (enqueued acts) as [| e q] eqn:E; [cbn in n; lia |].
    by destruct Ht as (h & due & -> & _).
Qed.

(** ** Flush attempts *)

Lemma flushEvents_batches s :
  exists later,
    batches (flushEvents true s) = batches s ++ later /\
    concat later ++ eventQueue (flushEvents true s) = eventQueue s.
Proof.
  unfold flushEvents. destruct (eventQueue s) as [| e q] eqn:Eq.
  - exists []. cbn [length Nat.eqb orb]. rewrite Eq. by rewrite app_nil_r.
  - cbn [length Nat.eqb orb negb].
    destruct (safeAnalyticsOperation_flush true (e :: q)) as [st reqs].
    exists [e :: q]. unfold batches. tsimpl.
    rewrite fmap_app. cbn [fmap list_fmap eventsToSend concat].
    by rewrite !app_nil_r.
Qed.

Lemma settle_batches i r s :
  batches (settle true i r s) = batches s /\
  eventQueue (settle true i r s) = eventQueue s.
Proof.
  unfold settle. destruct (flights s !! i) as [f |] eqn:Ef; [| done].
  assert (Hins : forall st,
    eventsToSend <$> <[i := mkFlight (eventsToSend f) st]> (flights s)
    = eventsToSend <$> flights s).
  { intros st. rewrite list_fmap_insert. cbn [eventsToSend].
    apply list_insert_id. by rewrite list_lookup_fmap, Ef. }
  destruct (awaiting f); [| | | done].
  all: destruct r;
    repeat match goal with
    | |- context [let (_, _) := ?p in _] => destruct p
    end; unfold batches; tsimpl; by rewrite Hins.
Qed.

Lemma step_batches s a :
  exists later,
    batches (step true s a) = batches s ++ later /\
    concat later ++ eventQueue (step true s a) = eventQueue s ++ enqueued [a].
Proof.
  destruct a as [t d | h | | i r | dv u | | hidden | dt];
    cbn [step enqueued]; rewrite ?app_nil_r.
  - unfold queueEvent. cbn [negb].
    set (s1 := set_eventQueue (eventQueue s ++ [mkEvent t d]) s).
    destruct (Nat.leb _ _).
    + apply (flushEvents_batches s1).
    + exists []. unfold batches.
      destruct (scheduleFlush_keeps s1) as [-> ->].
      subst s1. tsimpl. by rewrite app_nil_r.
  - unfold fire. destruct (find _ _) as [[h' due] |].
    + destruct (Z.leb due (now s)).
      * apply (flushEvents_batches (clearTimeout h s)).
      * exists []. by rewrite app_nil_r.
    + exists []. by rewrite app_nil_r.
  - apply flushEvents_batches.
  - exists []. destruct (settle_batches i r s) as [-> ->]. by rewrite app_nil_r.
  - exists []. rewrite app_nil_r.
    destruct (sendPing_sent_or_idle true dv u s) as [-> | ->];
      done.
  - exists []. by rewrite app_nil_r.
  - exists []. rewrite app_nil_r. unfold onVisibilityChange. tsimpl.
    by destruct (negb hidden).
  - exists []. by rewrite app_nil_r.
Qed.

Lemma enqueued_app acts1 acts2 :
  enqueued (acts1 ++ acts2) = enqueued acts1 ++ enqueued acts2.
Proof.
  induction acts1 as [| a acts1 IH]; [done |].
  destruct a; cbn [app enqueued]; by rewrite IH.
Qed.

Lemma run_batches acts s :
  exists later,
    batches (run true acts s) = batches s ++ later /\
    concat later ++ eventQueue (run true acts s) = eventQueue s ++ enqueued acts.
Proof.
  revert s. induction acts as [| a acts IH]; intros s.
  - exists []. by rewrite !app_nil_r.
  - cbn [run fold_left].
    destruct (step_batches s a) as (l1 & Hb1 & Hq1).
    destruct (IH (step true s a)) as (l2 & Hb2 & Hq2).
    exists (l1 ++ l2). split.
    + fold (run true acts (step true s a)). by rewrite Hb2, Hb1, app_assoc.
    + fold (run true acts (step true s a)).
      rewrite concat_app, <- app_assoc, Hq2, app_assoc, Hq1, <- app_assoc.
      f_equal. by rewrite <- (enqueued_app [a] acts).
Qed.

(** *** What a flush sends *)

Lemma inserts_of_nil evs : inserts_of evs [].
Proof. intros r Hr. by apply not_elem_of_nil in Hr. Qed.

Lemma inserts_of_one st evs : inserts_of evs [insert_of st evs].
Proof. intros r Hr. apply list_elem_of_singleton in Hr. eauto. Qed.

Lemma resume_searches_inserts e evs :
  inserts_of evs (snd (resume_searches e evs)).
Proof.
  unfold resume_searches.
  destruct (_ && _); [apply inserts_of_one | apply inserts_of_nil].
Qed.

Lemma resume_visits_inserts e evs :
  inserts_of evs (snd (resume_visits e evs)).
Proof.
  unfold resume_visits.
  destruct (_ && _); [apply inserts_of_one | apply resume_searches_inserts].
Qed.

Lemma resume_interactions_inserts e evs :
  inserts_of evs (snd (resume_interactions e evs)).
Proof.
  unfold resume_interactions.
  destruct (_ && _); [apply inserts_of_one | apply resume_visits_inserts].
Qed.

Lemma resume_after_inserts e st evs :
  inserts_of evs (snd (resume_after e st evs)).
Proof.
  destruct st; cbn [resume_after snd];
    auto using resume_visits_inserts, resume_searches_inserts, inserts_of_nil.
Qed.

Lemma safeAnalyticsOperation_flush_inserts e evs :
  inserts_of evs (snd (safeAnalyticsOperation_flush e evs)).
Proof.
  unfold safeAnalyticsOperation_flush.
  destruct (_ || _); [apply inserts_of_nil | apply resume_interactions_inserts].
Qed.

Lemma sends_nothing s s' :
  network s' = network s -> sends_from_batches s s'.
Proof.
  intros E. exists []. rewrite app_nil_r. split; [done |].
  intros t rows Hin. by apply not_elem_of_nil in Hin.
Qed.

Lemma flushEvents_sends s : sends_from_batches s (flushEvents true s).
Proof.
  unfold flushEvents. destruct (eventQueue s) as [| e q] eqn:Eq.
  - cbn [length Nat.eqb orb]. by apply sends_nothing.
  - cbn [length Nat.eqb orb negb].
    pose proof (safeAnalyticsOperation_flush_inserts true (e :: q)) as Hins.
    destruct (safeAnalyticsOperation_flush true (e :: q)) as [st reqs].
    cbn [snd] in Hins. exists reqs. unfold batches. tsimpl.
    split; [done |]. intros t rows Hin.
    destruct (Hins _ Hin) as [st' [= -> ->]].
    exists (e :: q). split; [| done].
    rewrite fmap_app. apply elem_of_app. right.
    apply list_elem_of_singleton. done.
Qed.

Lemma settle_sends i r s : sends_from_batches s (settle true i r s).
Proof.
  unfold settle. destruct (flights s !! i) as [f |] eqn:Ef;
    [| by apply sends_nothing].
  assert (Hsent : forall st reqs,
    inserts_of (eventsToSend f) reqs ->
    sends_from_batches s
      (send reqs
         (set_flights (<[i := mkFlight (eventsToSend f) st]> (flights s)) s))).
  { intros st reqs Hins. exists reqs. tsimpl. split; [done |].
    intros t rows Hin. destruct (Hins _ Hin) as [st' [= -> ->]].
    exists (eventsToSend f). split; [| done].
    unfold batches. tsimpl. rewrite list_fmap_insert. cbn [eventsToSend].
    rewrite list_insert_id by (by rewrite list_lookup_fmap, Ef).
    apply list_elem_of_fmap. exists f. split; [done |].
    by apply list_elem_of_lookup_2 in Ef. }
  destruct (awaiting f) eqn:Ea; [| | | by apply sends_nothing].
  all: destruct r; cbn [resume_after];
    try (apply Hsent, inserts_of_nil).
  all: match goal with
       | |- context [let (_, _) := ?p in _] =>
           let H := fresh in
           assert (H : inserts_of (eventsToSend f) (snd p))
             by auto using resume_visits_inserts, resume_searches_inserts;
           destruct p; by apply Hsent
       end.
Qed.

Lemma step_sends s a : sends_from_batches s (step true s a).
Proof.
  destruct a as [t d | h | | i r | dv u | | hidden | dt]; cbn [step].
  - unfold queueEvent. cbn [negb].
    set (s1 := set_eventQueue (eventQueue s ++ [mkEvent t d]) s).
    destruct (Nat.leb _ _).
    + apply (flushEvents_sends s1).
    + apply sends_nothing. unfold scheduleFlush.
      by destruct (flushTimeout s1).
  - unfold fire. destruct (find _ _) as [[h' due] |];
      [| by apply sends_nothing].
    destruct (Z.leb due (now s)); [| by apply sends_nothing].
    apply (flushEvents_sends (clearTimeout h s)).
  - apply flushEvents_sends.
  - apply settle_sends.
  - destruct (sendPing_sent_or_idle true dv u s) as [-> | ->];
      [| by apply sends_nothing].
    eexists. tsimpl. split; [done |]. intros t rows Hin.
    by apply list_elem_of_singleton in Hin.
  - by apply sends_nothing.
  - apply sends_nothing. unfold onVisibilityChange. tsimpl.
    by destruct (negb hidden).
  - by apply sends_nothing.
Qed.

Lemma step_inserts_from_batches s a :
  inserts_from_batches s -> inserts_from_batches (step true s a).
Proof.
  intros Hinv t rows Hin.
  destruct (step_sends s a) as (reqs & Hnet & Hnew).
  destruct (step_batches s a) as (later & Hb & _).
  rewrite Hnet in Hin. apply elem_of_app in Hin as [Hin | Hin].
  - destruct (Hinv _ _ Hin) as (b & Hb' & ->). exists b. split; [| done].
    rewrite Hb. apply elem_of_app. by left.
  - by apply Hnew.
Qed.

Lemma run_inserts_from_batches acts s :
  inserts_from_batches s -> inserts_from_batches (run true acts s).
Proof.
  revert s. induction acts as [| a acts IH]; intros s Hs; [done |].
  cbn [run fold_left]. apply IH. by apply step_inserts_from_batches.
Qed.

(** *** Each flush and its inserts *)

Lemma swapped_concat q : concat (swapped q) = q.
Proof. destruct q; [done|]. cbn. by rewrite app_nil_r. Qed.

Lemma flushEvents_swaps s :
  eventQueue (flushEvents true s) = [] /\
  batches (flushEvents true s) = batches s ++ swapped (eventQueue s) /\
  now (flushEvents true s) = now s.
Proof.
  unfold flushEvents. destruct (eventQueue s) as [| e q] eqn:Eq.
  - cbn [length Nat.eqb orb]. rewrite Eq. cbn [swapped].
    by rewrite app_nil_r.
  - cbn [length Nat.eqb orb negb].
    destruct (safeAnalyticsOperation_flush true (e :: q)) as [st reqs].
    unfold batches. tsimpl. rewrite fmap_app. done.
Qed.

Lemma inserts_upto_finished evs :
  inserts_upto Finished evs = inserts_of_batch evs.
Proof. reflexivity. Qed.

Lemma issued_by_weaken c f reqs : issued_by c f reqs -> issued_by false f reqs.
Proof.
  unfold issued_by. destruct (awaiting f); try done.
  destruct c; [| done]. intros ->. exists []. by rewrite app_nil_r.
Qed.

Ltac by_groups c :=
  repeat match goal with
  | |- context [non_empty (group ?t ?e)] =>
      destruct (non_empty (group t e)) eqn:?
  end;
  cbn [fst snd awaiting stage_table app]; rewrite ?app_nil_r;
  try discriminate; try done;
  destruct c; try done; by exists [].

Lemma resume_interactions_issued c evs :
  issued_by c (mkFlight evs (resume_interactions true evs).1)
    (resume_interactions true evs).2.
Proof.
  unfold issued_by, resume_interactions, resume_visits, resume_searches,
    inserts_of_batch, inserts_upto, has_client, analyticsClient.
  cbn [eventsToSend awaiting stage_table stages_upto flat_map].
  rewrite !andb_true_r. by_groups c.
Qed.

Lemma resume_after_issued c st evs :
  st <> Finished ->
  issued_by c (mkFlight evs st) (inserts_upto st evs) ->
  issued_by c (mkFlight evs (resume_after true st evs).1)
    (inserts_upto st evs ++ (resume_after true st evs).2).
Proof.
  unfold issued_by, resume_after, resume_visits, resume_searches,
    inserts_of_batch, inserts_upto, has_client, analyticsClient.
  cbn [eventsToSend awaiting stage_table stages_upto flat_map].
  rewrite !andb_true_r.
  destruct st; [| | | done]; intros _;
    cbn [awaiting stage_table stages_upto flat_map]; intros [Hne _];
    revert Hne; by_groups c.
Qed.

Lemma inserts_upto_prefix st evs :
  exists rest, inserts_of_batch evs = inserts_upto st evs ++ rest.
Proof.
  unfold inserts_of_batch, inserts_upto.
  destruct st; cbn [stages_upto flat_map]; rewrite ?app_nil_r.
  - eexists. reflexivity.
  - eexists. rewrite <- app_assoc. reflexivity.
  - exists []. by rewrite !app_nil_r.
  - exists []. by rewrite !app_nil_r.
Qed.

Lemma concat_insert_app {A} (l : list (list A)) i p r :
  l !! i = Some p ->
  concat (<[i := p ++ r]> l) ≡ₚ concat l ++ r.
Proof.
  revert i. induction l as [| x l IH]; intros [| i]; cbn; try done.
  - intros [= ->]. rewrite <- !app_assoc. f_equiv. apply Permutation_app_comm.
  - intros H. rewrite (IH _ H). by rewrite app_assoc.
Qed.

Lemma filter_inserts_of evs reqs :
  inserts_of evs reqs -> List.filter is_insert reqs = reqs.
Proof.
  intros H. apply forallb_filter_id, forallb_forall. intros r Hr.
  apply list_elem_of_In in Hr. destruct (H _ Hr) as (st & ->). done.
Qed.

Lemma flushEvents_inserts_by_flight c s :
  inserts_by_flight c s -> inserts_by_flight c (flushEvents true s).
Proof.
  intros (sent & Hf & Hn). unfold flushEvents.
  destruct (eventQueue s) as [| e q] eqn:Eq; cbn [length Nat.eqb orb negb].
  - by exists sent.
  - unfold safeAnalyticsOperation_flush, has_client, analyticsClient.
    cbn [negb orb].
    pose proof (resume_interactions_issued c (e :: q)) as Hi.
    pose proof (resume_interactions_inserts true (e :: q)) as Hins.
    destruct (resume_interactions true (e :: q)) as [st reqs].
    cbn [fst snd] in Hi, Hins.
    exists (sent ++ [reqs]). tsimpl. split.
    + apply Forall2_app; [done |]. by constructor.
    + rewrite List.filter_app, concat_app, (filter_inserts_of _ _ Hins).
      cbn [concat]. rewrite app_nil_r. by f_equiv.
Qed.

Lemma settle_eq i r s f :
  flights s !! i = Some f -> awaiting f <> Finished ->
  settle true i r s =
    let p := match r with
             | RespThrows => (Finished, [])
             | _ => resume_after true (awaiting f) (eventsToSend f)
             end in
    send p.2
      (set_flights (<[i := mkFlight (eventsToSend f) p.1]> (flights s)) s).
Proof.
  intros Ef Ea. unfold settle. rewrite Ef.
  destruct (awaiting f); [| | | done];
    destruct r; cbn zeta;
    repeat match goal with
    | |- context [let (_, _) := ?p in _] => destruct p
    end; done.
Qed.

Lemma settle_inserts_by_flight c i r s :
  (c = true -> r <> RespThrows) ->
  inserts_by_flight c s -> inserts_by_flight c (settle true i r s).
Proof.
  intros Hc (sent & Hf & Hn).
  destruct (flights s !! i) as [f |] eqn:Ef;
    [| unfold settle; rewrite Ef; by exists sent].
  destruct (awaiting f) eqn:Ea0.
  4: { unfold settle. rewrite Ef, Ea0. by exists sent. }
  all: assert (Ea : awaiting f <> Finished) by (by rewrite Ea0).
  all: rewrite (settle_eq i r s f Ef Ea).
  all: destruct (Forall2_lookup_l _ _ _ _ _ Hf Ef) as (p & Ep & Hp).
  all: destruct f as [evs st]; cbn [awaiting eventsToSend] in *; subst st.
  all: assert (Hp' : p = inserts_upto _ evs) by apply Hp.
  all: cbn zeta.
  all: match goal with
       | |- inserts_by_flight _ (send (snd ?q) _) =>
           assert (Hq : issued_by c (mkFlight evs q.1) (p ++ q.2) /\
                        inserts_of evs q.2)
       end.
  all: try (destruct r;
    [ split; [subst p; by apply resume_after_issued
             | apply resume_after_inserts]
    | split; [subst p; by apply resume_after_issued
             | apply resume_after_inserts]
    | split; [| apply inserts_of_nil];
      cbn [fst snd]; rewrite app_nil_r; unfold issued_by;
      cbn [awaiting eventsToSend];
      destruct c; [exfalso; by apply Hc |];
      subst p; apply inserts_upto_prefix ]).
  all: match goal with
       | |- inserts_by_flight _ (send (snd ?q) _) =>
           destruct Hq as [Hq1 Hq2];
           exists (<[i := p ++ q.2]> sent); tsimpl; split;
           [ by apply Forall2_insert
           | rewrite List.filter_app, (filter_inserts_of _ _ Hq2),
               (concat_insert_app _ _ _ _ Ep); by f_equiv ]
       end.
Qed.

Lemma same_inserts_by_flight c s s' :
  flights s' = flights s ->
  List.filter is_insert (network s') = List.filter is_insert (network s) ->
  inserts_by_flight c s -> inserts_by_flight c s'.
Proof. intros Ef En (sent & ? & ?). exists sent. by rewrite Ef, En. Qed.

Lemma step_inserts_by_flight c s a :
  (c = true -> throws a = false) ->
  inserts_by_flight c s -> inserts_by_flight c (step true s a).
Proof.
  intros Hc Hs.
  destruct a as [t d | h | | i r | dv u | | hidden | dt]; cbn [step].
  - unfold queueEvent. cbn [negb].
    set (s1 := set_eventQueue (eventQueue s ++ [mkEvent t d]) s).
    assert (H1 : inserts_by_flight c s1) by exact Hs.
    destruct (Nat.leb _ _).
    + by apply flushEvents_inserts_by_flight.
    + revert H1. apply same_inserts_by_flight.
      * apply scheduleFlush_keeps.
      * unfold scheduleFlush. by destruct (flushTimeout s1).
  - unfold fire. destruct (find _ _) as [[h' due] |]; [| done].
    destruct (Z.leb due (now s)); [| done].
    by apply flushEvents_inserts_by_flight.
  - by apply flushEvents_inserts_by_flight.
  - apply settle_inserts_by_flight; [| done].
    intros -> ->. by specialize (Hc eq_refl).
  - destruct (sendPing_sent_or_idle true dv u s) as [-> | ->]; [| done].
    revert Hs. apply same_inserts_by_flight; [done |]. tsimpl.
    rewrite List.filter_app. cbn. by rewrite app_nil_r.
  - done.
  - revert Hs. apply same_inserts_by_flight;
      unfold onVisibilityChange; tsimpl; by destruct (negb hidden).
  - done.
Qed.

Lemma run_inserts_by_flight c acts s :
  (c = true -> no_throw acts = true) ->
  inserts_by_flight c s -> inserts_by_flight c (run true acts s).
Proof.
  revert s. induction acts as [| a acts IH]; intros s Hc Hs; [done |].
  cbn [run fold_left]. apply IH.
  - intros E. specialize (Hc E). cbn in Hc.
    by apply andb_true_iff in Hc as [_ Hc].
  - apply step_inserts_by_flight; [| done].
    intros E. specialize (Hc E). cbn in Hc.
    apply andb_true_iff in Hc as [Hc _]. by apply negb_true_iff.
Qed.

(** C6. In every interleaving of tracking calls, flushes (size threshold,
    timer, unload), settling inserts, pings and clock events:
    the batches of the flushes started so far never change afterwards,
    and the batches started later followed by the queue are exactly the
    events that were waiting followed by those enqueued since, in order
    and without repetition;
    a flush takes everything queued as its one batch and leaves the queue
    empty, so that every event enqueued up to then is in exactly one
    batch;
    whatever happens after that swap, in particular events enqueued
    while the inserts of the flush are pending, the batch of that flush
    stays as it is, the events enqueued since are in later batches or
    still queued, and the following flush takes all that are still
    queued, each event once and in no two batches;
    every insert request sent carries rows of one batch only, and the
    insert requests in the network log are, flush by flush, the inserts
    of that flush's own batch, one per table with events in program
    order: those up to the insert awaited while the flush is suspended,
    all of them once it has ended when no awaited insert has thrown, and
    an initial part of them otherwise. *)
Theorem flush_batches_partition_enqueued (t0 : Z) (acts1 acts2 : list Action) :
  let s1 := run true acts1 (init t0) in
  let s2 := run true acts2 s1 in
  let f1 := flushEvents true s1 in
  let m2 := run true acts2 f1 in
  (exists later,
     batches s2 = batches s1 ++ later /\
     concat later ++ eventQueue s2 = eventQueue s1 ++ enqueued acts2 /\
     concat (batches s2) ++ eventQueue s2 = enqueued (acts1 ++ acts2)) /\
  (eventQueue f1 = [] /\
   batches f1 = batches s1 ++ swapped (eventQueue s1) /\
   concat (batches f1) = enqueued acts1) /\
  (exists later,
     batches m2 = batches s1 ++ swapped (eventQueue s1) ++ later /\
     concat later ++ eventQueue m2 = enqueued acts2 /\
     eventQueue (flushEvents true m2) = [] /\
     batches (flushEvents true m2) =
       batches s1 ++ swapped (eventQueue s1) ++ later ++
       swapped (eventQueue m2) /\
     concat (later ++ swapped (eventQueue m2)) = enqueued acts2) /\
  inserts_from_batches s2 /\
  inserts_by_flight (no_throw (acts1 ++ acts2)) s2.
Proof.
  intros s1 s2 f1 m2.
  destruct (run_batches acts1 (init t0)) as (l1 & Hb1 & Hq1).
  fold s1 in Hb1, Hq1.
  cbn [init batches flights eventQueue fmap list_fmap app] in Hb1, Hq1.
  destruct (flushEvents_swaps s1) as (Hfq & Hfb & _). fold f1 in Hfq, Hfb.
  split; [| split; [| split; [| split]]].
  - destruct (run_batches acts2 s1) as (later & Hb & Hq).
    fold s2 in Hb, Hq.
    exists later. split; [exact Hb |]. split; [exact Hq |].
    rewrite Hb, concat_app, <- app_assoc, Hq, app_assoc.
    unfold batches in Hb1 |- *. rewrite Hb1, Hq1. by rewrite enqueued_app.
  - split; [exact Hfq |]. split; [exact Hfb |].
    rewrite Hfb, concat_app, swapped_concat.
    unfold batches in Hb1 |- *. by rewrite Hb1.
  - destruct (run_batches acts2 f1) as (later & Hb & Hq).
    fold m2 in Hb, Hq. rewrite Hfq in Hq. cbn [app] in Hq.
    destruct (flushEvents_swaps m2) as (Hmq & Hmb & _).
    exists later. rewrite Hmb, Hb, Hfb, <- !app_assoc.
    repeat split; try done.
    by rewrite concat_app, swapped_concat.
  - do 2 apply run_inserts_from_batches.
    intros t rows Hin. by apply not_elem_of_nil in Hin.
  - unfold s2, s1. unfold run. rewrite <- fold_left_app.
    apply run_inserts_by_flight; [done |].
    exists []. split; [constructor | done].
Qed.

(** ** The size threshold at concrete inputs *)

Lemma queueEvent_timer_and_threshold_witness :
  exists h due,
    timers (run true [visit; Elapse 1200; visit; visit] (init 0)) = [(h, due)] /\
    flushTimeout (run true [visit; Elapse 1200; visit; visit] (init 0)) = Some h.
Proof.
  destruct (queueEvent_timer_and_threshold 0
              [visit; Elapse 1200; visit; visit]) as [Hsmall _].
  - repeat constructor.
  - destruct Hsmall as (h & due & Ht & Hh & _).
    + vm_compute. lia.
    + exists h, due. split; [exact Ht | exact Hh].
Defined.

(** C4, as stated, fails: after ten tracking calls the flush has started
    and the queue is empty, yet the timer scheduled by the ninth call
    (handle 9, due at 5000) is still pending. *)
Lemma tenth_enqueue_timer_still_pending :
  let s9 := run true (repeat visit 9) (init 0) in
  let s10 := queueEvent true "visit_logs" "{}" s9 in
  timers s9 = [(9%nat, 5000)] /\
  eventQueue s10 = [] /\
  length (flights s10) = 1%nat /\
  timers s10 = [(9%nat, 5000)] /\
  timers s10 <> [].
Proof. vm_compute. repeat split; discriminate. Qed.

(** When that timer fires later it finds the queue empty and [flushEvents]
    returns at once. *)
Example leftover_timer_fires_idle :
  let s10 := run true (repeat visit 10 ++ [Elapse 5000]) (init 0) in
  let s := fire true 9 s10 in
  eventQueue s = [] /\ flights s = flights s10 /\ network s = network s10 /\
  timers s = [].
Proof. vm_compute. repeat split. Qed.

(** ** Invariants of every run *)

Lemma flushEvents_keeps_timers e s :
  timers (flushEvents e s) = timers s /\
  flushTimeout (flushEvents e s) = flushTimeout s /\
  nextHandle (flushEvents e s) = nextHandle s /\
  now (flushEvents e s) = now s.
Proof.
  unfold flushEvents. destruct (_ || _); [done |].
  by destruct (safeAnalyticsOperation_flush e (eventQueue s)).
Qed.

Lemma settle_keeps_timers e i r s :
  timers (settle e i r s) = timers s /\
  flushTimeout (settle e i r s) = flushTimeout s /\
  nextHandle (settle e i r s) = nextHandle s /\
  now (settle e i r s) = now s.
Proof.
  unfold settle. destruct (flights s !! i) as [f |]; [| done].
  destruct (awaiting f); [| | | done].
  all: destruct r;
    repeat match goal with
    | |- context [let (_, _) := ?p in _] => destruct p
    end; done.
Qed.

Lemma sendPing_keeps e d u s :
  timers (sendPing e d u s) = timers s /\
  flushTimeout (sendPing e d u s) = flushTimeout s /\
  nextHandle (sendPing e d u s) = nextHandle s /\
  now (sendPing e d u s) = now s /\
  eventQueue (sendPing e d u s) = eventQueue s /\
  flights (sendPing e d u s) = flights s.
Proof.
  destruct (sendPing_sent_or_idle e d u s) as [-> | ->];
    done.
Qed.

Lemma timers_ok_same s s' :
  timers s' = timers s -> flushTimeout s' = flushTimeout s ->
  nextHandle s' = nextHandle s -> now s' = now s ->
  timers_ok s -> timers_ok s'.
Proof. unfold timers_ok. by intros -> -> -> ->. Qed.

Lemma scheduleFlush_timers_ok s : timers_ok s -> timers_ok (scheduleFlush s).
Proof.
  intros (Hlen & Hin & Hh).
  assert (Hclear :
    timers (match flushTimeout s with
            | Some h => clearTimeout h s
            | None => s
            end) = []).
  { destruct (timers s) as [| [h due] [| ? ?]] eqn:Et;
      [| | cbn in Hlen; lia].
    - destruct (flushTimeout s); [| done]. unfold clearTimeout. tsimpl.
      by rewrite Et.
    - destruct (Hin h due) as [Hf _]; [apply list_elem_of_here |].
      rewrite Hf. unfold clearTimeout. tsimpl. rewrite Et.
      cbn [List.filter fst]. by rewrite Nat.eqb_refl. }
  assert (Hnext :
    nextHandle match flushTimeout s with
               | Some h => clearTimeout h s
               | None => s
               end = nextHandle s /\
    now match flushTimeout s with
        | Some h => clearTimeout h s
        | None => s
        end = now s) by (by destruct (flushTimeout s)).
  destruct Hnext as [En Enow].
  unfold timers_ok, scheduleFlush, setTimeout. tsimpl.
  rewrite Hclear, En, Enow. cbn [app].
  split; [cbn; lia |]. split.
  - intros h due Hx. apply list_elem_of_singleton in Hx.
    injection Hx as -> ->. split; [done | lia].
  - intros h [= <-]. lia.
Qed.

Lemma step_timers_ok s a : timers_ok s -> timers_ok (step true s a).
Proof.
  intros Hok.
  destruct a as [t d | h | | i r | dv u | | hidden | dt]; cbn [step].
  - unfold queueEvent. cbn [negb].
    set (s1 := set_eventQueue (eventQueue s ++ [mkEvent t d]) s).
    assert (Hok1 : timers_ok s1) by exact Hok.
    destruct (Nat.leb _ _).
    + destruct (flushEvents_keeps_timers true s1) as (E1 & E2 & E3 & E4).
      by apply (timers_ok_same s1).
    + by apply scheduleFlush_timers_ok.
  - unfold fire. destruct (find _ _) as [[h' due] |]; [| done].
    destruct (Z.leb due (now s)); [| done].
    destruct (flushEvents_keeps_timers true (clearTimeout h s))
      as (E1 & E2 & E3 & E4).
    apply (timers_ok_same (clearTimeout h s)); try done.
    destruct Hok as (Hlen & Hin & Hh). unfold clearTimeout.
    unfold timers_ok. tsimpl. split; [| split; [| exact Hh]].
    + etransitivity; [apply List.filter_length_le | done].
    + intros h0 due0 Hx. apply list_elem_of_In, filter_In in Hx as [Hx _].
      apply list_elem_of_In in Hx. by apply Hin.
  - destruct (flushEvents_keeps_timers true s) as (E1 & E2 & E3 & E4).
    by apply (timers_ok_same s).
  - destruct (settle_keeps_timers true i r s) as (E1 & E2 & E3 & E4).
    by apply (timers_ok_same s).
  - destruct (sendPing_keeps true dv u s) as (E1 & E2 & E3 & E4 & _).
    by apply (timers_ok_same s).
  - exact Hok.
  - unfold onVisibilityChange. tsimpl. by destruct (negb hidden).
  - destruct Hok as (Hlen & Hin & Hh). unfold timers_ok. tsimpl.
    split; [done |]. split; [| done].
    intros h due Hx. destruct (Hin h due Hx) as [Hf Hd]. split; [done | lia].
Qed.

(** X13. In every interleaving of the batcher, with analytics enabled,
    at most one flush timer is pending; a pending timer is the one
    [flushTimeout] refers to and is due no later than 5000 ms from now. *)
Theorem one_flush_timer_at_most (t0 : Z) (acts : list Action) :
  let s := run true acts (init t0) in
  (length (timers s) <= 1)%nat /\
  forall h due, (h, due) ∈ timers s ->
    flushTimeout s = Some h /\ due <= now s + 5000.
Proof.
  cbn zeta.
  assert (H : forall s, timers_ok s -> timers_ok (run true acts s)).
  { induction acts as [| a acts IH]; intros s Hs; [done |].
    cbn [run fold_left]. apply IH. by apply step_timers_ok. }
  destruct (H (init t0)) as (Hlen & Hin & _); [| by split].
  unfold timers_ok. cbn. split; [lia |]. split; [| done].
  intros h due Hx. by apply not_elem_of_nil in Hx.
Qed.

Lemma flushEvents_bounded s :
  (length (eventQueue s) <= MAX_QUEUE_SIZE)%nat ->
  (forall b, b ∈ batches s -> (1 <= length b <= MAX_QUEUE_SIZE)%nat) ->
  bounded (flushEvents true s).
Proof.
  unfold bounded, MAX_QUEUE_SIZE. intros Hlen Hb. unfold flushEvents.
  destruct (eventQueue s) as [| e q] eqn:Eq.
  - cbn [length Nat.eqb orb]. split; [rewrite Eq; cbn; lia | done].
  - cbn [length Nat.eqb orb negb].
    destruct (safeAnalyticsOperation_flush true (e :: q)) as [st reqs].
    unfold batches. tsimpl. split; [cbn; lia |].
    intros b Hin. rewrite fmap_app in Hin.
    apply elem_of_app in Hin as [Hin | Hin]; [by apply Hb |].
    apply list_elem_of_singleton in Hin as ->.
    cbn [length eventsToSend] in *. lia.
Qed.

Lemma step_bounded s a : bounded s -> bounded (step true s a).
Proof.
  intros [Hlen Hb]. unfold MAX_QUEUE_SIZE in Hlen.
  destruct a as [t d | h | | i r | dv u | | hidden | dt]; cbn [step].
  - unfold queueEvent. cbn [negb].
    set (s1 := set_eventQueue (eventQueue s ++ [mkEvent t d]) s).
    assert (Hlen1 : length (eventQueue s1) = S (length (eventQueue s))).
    { subst s1. tsimpl. rewrite length_app. cbn. lia. }
    destruct (Nat.leb_spec MAX_QUEUE_SIZE (length (eventQueue s1))).
    + apply flushEvents_bounded; [unfold MAX_QUEUE_SIZE; lia | exact Hb].
    + destruct (scheduleFlush_keeps s1) as [Eq Ef].
      unfold bounded, batches. by rewrite Eq, Ef.
  - unfold fire. destruct (find _ _) as [[h' due] |]; [| done].
    destruct (Z.leb due (now s)); [| done].
    apply flushEvents_bounded; [unfold MAX_QUEUE_SIZE; cbn; lia | exact Hb].
  - apply flushEvents_bounded; [unfold MAX_QUEUE_SIZE; lia | exact Hb].
  - destruct (settle_batches i r s) as [Eb Eq].
    unfold bounded. by rewrite Eb, Eq.
  - destruct (sendPing_keeps true dv u s) as (_ & _ & _ & _ & Eq & Ef).
    unfold bounded, batches. by rewrite Eq, Ef.
  - done.
  - unfold onVisibilityChange. tsimpl. by destruct (negb hidden).
  - done.
Qed.

(** X14. In every interleaving of the batcher, with analytics enabled,
    fewer than 10 events are waiting in the queue between two steps, and
    every flush takes between 1 and 10 events. *)
Theorem queue_and_batches_bounded (t0 : Z) (acts : list Action) :
  let s := run true acts (init t0) in
  (length (eventQueue s) < 10)%nat /\
  forall b, b ∈ batches s -> (1 <= length b <= 10)%nat.
Proof.
  cbn zeta.
  assert (H : forall s, bounded s -> bounded (run true acts s)).
  { induction acts as [| a acts IH]; intros s Hs; [done |].
    cbn [run fold_left]. apply IH. by apply step_bounded. }
  apply (H (init t0)). split; [unfold MAX_QUEUE_SIZE; cbn; lia |].
  intros b Hin. by apply not_elem_of_nil in Hin.
Qed.

(** ** A flush from its swap to its end *)

Lemma settle_last fs q st r s :
  flights s = fs ++ [mkFlight q st] ->
  st <> Finished ->
  settle true (length fs) r s =
  let (st', reqs) :=
    match r with
    | RespThrows => (Finished, [])
    | _ => resume_after true st q
    end in
  send reqs (set_flights (fs ++ [mkFlight q st']) s).
Proof.
  intros Hf Hst. unfold settle.
  rewrite Hf, list_lookup_middle by done. cbn [awaiting eventsToSend].
  assert (Hins : forall st',
    <[length fs := mkFlight q st']> (fs ++ [mkFlight q st]) =
    fs ++ [mkFlight q st']).
  { intros st'. rewrite insert_app_r_alt by lia.
    by rewrite Nat.sub_diag. }
  destruct st; [| | | done]; destruct r;
    repeat match goal with
    | |- context [let (_, _) := ?p in _] => destruct p
    end; by rewrite Hins.
Qed.

Lemma settle_finished fs q r s :
  flights s = fs ++ [mkFlight q Finished] ->
  settle true (length fs) r s = s.
Proof.
  intros Hf. unfold settle. by rewrite Hf, list_lookup_middle.
Qed.

Lemma settle_normal fs q st r R s0 :
  st <> Finished -> r <> RespThrows ->
  settle true (length fs) r
    (send R (set_flights (fs ++ [mkFlight q st]) s0)) =
  send (R ++ snd (resume_after true st q))
    (set_flights (fs ++ [mkFlight q (fst (resume_after true st q))]) s0).
Proof.
  intros Hst Hr.
  rewrite (settle_last fs q st r) by done.
  destruct (resume_after true st q) as [st' reqs].
  destruct r; [| | done]; unfold send, set_flights; tsimpl;
    by rewrite app_assoc.
Qed.

Lemma settle_normal_finished fs q r R s0 :
  settle true (length fs) r
    (send R (set_flights (fs ++ [mkFlight q Finished]) s0)) =
  send R (set_flights (fs ++ [mkFlight q Finished]) s0).
Proof. by apply (settle_finished fs q). Qed.

(** X15. A flush none of whose inserts throws sends, for each of the
    three tables that has events in the batch, one insert with the rows
    of that table, in the order interactions, visits, searches, and
    nothing else; after at most three settled inserts it has ended.
    Events queued under any other table are sent nowhere. *)
Theorem flushEvents_sends_each_group_once
    (s : State) (r1 r2 r3 : Response) :
  eventQueue s <> [] ->
  r1 <> RespThrows -> r2 <> RespThrows -> r3 <> RespThrows ->
  let i := length (flights s) in
  let s' := settle true i r3 (settle true i r2 (settle true i r1
              (flushEvents true s))) in
  network s' = network s ++ inserts_of_batch (eventQueue s) /\
  flights s' = flights s ++ [mkFlight (eventQueue s) Finished] /\
  eventQueue s' = [].
Proof.
  intros Hq H1 H2 H3. cbn zeta.
  set (q := eventQueue s). set (fs := flights s).
  assert (Hflush : exists st reqs,
    resume_interactions true q = (st, reqs) /\
    flushEvents true s =
      send reqs (set_flights (fs ++ [mkFlight q st]) (set_eventQueue [] s))).
  { unfold flushEvents, safeAnalyticsOperation_flush. fold q.
    destruct q as [| e q'] eqn:E; [done |].
    cbn [length Nat.eqb orb negb has_client analyticsClient].
    destruct (resume_interactions true (e :: q')) as [st reqs].
    by exists st, reqs. }
  destruct Hflush as (st & reqs & Hres & ->).
  unfold inserts_of_batch, resume_interactions, resume_visits,
    resume_searches, has_client, analyticsClient in *.
  cbn [flat_map stage_table] in *. rewrite !andb_true_r in Hres.
  fold q.
  destruct (non_empty (group "business_interactions" q)) eqn:E1;
  destruct (non_empty (group "visit_logs" q)) eqn:E2;
  destruct (non_empty (group "ai_search_logs" q)) eqn:E3;
  injection Hres as <- <-.
  all: repeat
    (first [ rewrite settle_normal_finished
           | rewrite settle_normal by done ];
     cbn [resume_after]; unfold resume_visits, resume_searches, has_client,
       analyticsClient; rewrite ?andb_true_r, ?E2, ?E3; cbn [fst snd]).
  all: tsimpl; rewrite <- ?app_assoc, ?app_nil_r; done.
Qed.

Lemma flushEvents_sends_each_group_once_witness :
  let s := run true [Enqueue "visit_logs" "{v}"; Enqueue "ai_search_logs" "{a}";
                     Enqueue "page_views" "{x}"] (init 0) in
  network (settle true 0 RespOk (settle true 0 RespError (settle true 0 RespOk
             (flushEvents true s)))) =
  [Insert "visit_logs" ["{v}"]; Insert "ai_search_logs" ["{a}"]].
Proof.
  cbn zeta.
  apply (proj1 (flushEvents_sends_each_group_once
    (run true [Enqueue "visit_logs" "{v}"; Enqueue "ai_search_logs" "{a}";
               Enqueue "page_views" "{x}"] (init 0))
    RespOk RespError RespOk
    ltac:(vm_compute; discriminate) ltac:(discriminate) ltac:(discriminate)
    ltac:(discriminate))).
Defined.

(** X16. When an awaited insert of a flush throws, the flush ends there:
    nothing is sent at that moment, the flight is finished, and however
    its later inserts would have settled nothing more is ever sent for
    it, so the groups not yet inserted are lost.  The queue is not
    touched: nothing is put back. *)
Theorem throwing_insert_ends_flush
    (s : State) (i : nat) (f : Flight) (later : list Response) :
  flights s !! i = Some f ->
  awaiting f <> Finished ->
  let s1 := settle true i RespThrows s in
  network s1 = network s /\
  flights s1 !! i = Some (mkFlight (eventsToSend f) Finished) /\
  eventQueue s1 = eventQueue s /\
  run true (map (Settle i) later) s1 = s1.
Proof.
  intros Hf Ha. cbn zeta.
  assert (E : settle true i RespThrows s =
    send [] (set_flights
               (<[i := mkFlight (eventsToSend f) Finished]> (flights s)) s)).
  { unfold settle. rewrite Hf. by destruct (awaiting f). }
  rewrite E. tsimpl. rewrite app_nil_r.
  assert (Hl : <[i := mkFlight (eventsToSend f) Finished]> (flights s) !! i =
               Some (mkFlight (eventsToSend f) Finished)).
  { apply list_lookup_insert_eq. by apply lookup_lt_Some in Hf. }
  split; [done |]. split; [exact Hl |]. split; [done |].
  induction later as [| r later IH]; [done |].
  cbn [map run fold_left step]. fold (run true (map (Settle i) later)).
  replace (settle true i r _) with
    (send [] (set_flights
       (<[i := mkFlight (eventsToSend f) Finished]> (flights s)) s));
    [exact IH |].
  unfold settle at 1. tsimpl. by rewrite Hl.
Qed.

Lemma throwing_insert_ends_flush_witness :
  let s := flushEvents true
             (run true [Enqueue "business_interactions" "{c}";
                        Enqueue "visit_logs" "{v}"] (init 0)) in
  network (settle true 0 RespThrows s) =
    [Insert "business_interactions" ["{c}"]] /\
  run true (map (Settle 0) [RespOk; RespOk]) (settle true 0 RespThrows s) =
    settle true 0 RespThrows s.
Proof.
  cbn zeta.
  destruct (throwing_insert_ends_flush
    (flushEvents true
       (run true [Enqueue "business_interactions" "{c}";
                  Enqueue "visit_logs" "{v}"] (init 0)))
    0 (mkFlight [mkEvent "business_interactions" "{c}";
                 mkEvent "visit_logs" "{v}"] Interactions)
    [RespOk; RespOk]) as (Hn & _ & _ & Hr).
  - vm_compute. reflexivity.
  - discriminate.
  - split; [exact Hn | exact Hr].
Defined.

End TrackingFacts.

(** ** Facts about the device identifier and the user name *)

Module IdentityFacts.

Import Identity.

Lemma truthy_Some (v : option string) :
  truthy v = true -> exists s, v = Some s /\ s <> "".
Proof.
  destruct v as [s|]; [|discriminate].
  cbn. intros H. exists s. split; [reflexivity|].
  intros ->. discriminate.
Qed.

Lemma keys_differ : DEVICE_ID_KEY <> USER_NAME_KEY.
Proof. discriminate. Qed.

(** X17. [getDeviceId] generates an identifier only when none (or an
    empty one) is stored: the identifier it returns is never empty and
    is the stored one afterwards, every later call returns the same
    identifier and leaves the storage alone whatever the clock and the
    random draw are, a stored non-empty identifier is returned without a
    write, and the user name is never touched. *)
Theorem getDeviceId_stable (render : Z -> string) (now1 now2 : Z)
    (rnd1 rnd2 : string) (storage : gmap string string) :
  let r := getDeviceId render now1 rnd1 storage in
  r.1 <> "" /\
  getItem DEVICE_ID_KEY r.2 = Some r.1 /\
  getDeviceId render now2 rnd2 r.2 = r /\
  getUserName r.2 = getUserName storage /\
  (forall d, getItem DEVICE_ID_KEY storage = Some d -> d <> "" ->
     r = (d, storage)).
Proof.
  cbn zeta. unfold getDeviceId.
  destruct (truthy (getItem DEVICE_ID_KEY storage)) eqn:Ht.
  - destruct (truthy_Some _ Ht) as (d & Hd & Hne).
    rewrite Hd. cbn [fst snd]. rewrite Hd, <- Hd, Ht, Hd.
    repeat split; try assumption; try reflexivity.
    intros d' [= ->] _. reflexivity.
  - cbn [fst snd]. unfold getItem, setItem, getUserName, getItem.
    rewrite lookup_insert_eq.
    rewrite (lookup_insert_ne _ _ _ _ keys_differ).
    cbn [truthy]. repeat split; try discriminate.
    intros d Hd Hne. exfalso.
    unfold getItem in Ht. rewrite Hd in Ht. cbn in Ht.
    destruct (String.eqb_spec d ""); [contradiction | discriminate].
Qed.

(** X18. [setUserName] followed by [getUserName] returns the name just
    stored; [hasUserName] then answers true exactly when that name is not
    the empty string, and the stored device identifier is the one
    [getDeviceId] keeps returning. *)
Theorem setUserName_then_getUserName (render : Z -> string) (now : Z)
    (rnd name : string) (storage : gmap string string) :
  getUserName (setUserName name storage) = Some name /\
  hasUserName (setUserName name storage) = negb (String.eqb name "") /\
  (getDeviceId render now rnd (setUserName name storage)).1 =
    (getDeviceId render now rnd storage).1.
Proof.
  unfold hasUserName, getUserName, setUserName, getDeviceId, getItem,
    setItem.
  rewrite lookup_insert_eq.
  rewrite (lookup_insert_ne _ _ _ _ (not_eq_sym keys_differ)).
  repeat split.
  destruct (truthy (storage !! DEVICE_ID_KEY)); reflexivity.
Qed.

End IdentityFacts.

(** ** Facts about the display helpers *)

Module DisplayFacts.

Import Display.

(** X19. [formatPhoneNumber] on a number of ten characters yields
    fifteen characters: the prefix [+91 ], the first five characters, a
    space and the last five; the ten characters can be read back from
    positions 4-8 and 10-14. *)
Theorem formatPhoneNumber_ten (phoneNumber : string) :
  String.length phoneNumber = 10%nat ->
  let shown := formatPhoneNumber phoneNumber in
  String.length shown = 15%nat /\
  String.substring 0 4 shown = "+91 " /\
  String.get 9 shown = Some Ascii.Space /\
  (String.substring 4 5 shown ++ String.substring 10 5 shown)%string =
    phoneNumber.
Proof.
  intros Hlen.
  do 10 (destruct phoneNumber as [|? phoneNumber]; [discriminate|]).
  destruct phoneNumber; [|discriminate].
  cbv. repeat split; reflexivity.
Qed.

Lemma formatPhoneNumber_ten_witness :
  String.length "9876543210" = 10%nat /\
  let shown := formatPhoneNumber "9876543210" in
  String.length shown = 15%nat /\
  String.substring 0 4 shown = "+91 " /\
  String.get 9 shown = Some Ascii.Space /\
  (String.substring 4 5 shown ++ String.substring 10 5 shown)%string =
    "9876543210".
Proof.
  split; [reflexivity|].
  apply (formatPhoneNumber_ten "9876543210"). reflexivity.
Defined.

(** X20. [formatPhoneNumber] returns a number whose length is not ten
    unchanged, so formatting is idempotent on every input. *)
Theorem formatPhoneNumber_idempotent (phoneNumber : string) :
  formatPhoneNumber (formatPhoneNumber phoneNumber) =
    formatPhoneNumber phoneNumber.
Proof.
  unfold formatPhoneNumber at 2 3.
  destruct (Nat.eqb_spec (String.length phoneNumber) 10) as [Hlen|Hlen].
  - do 10 (destruct phoneNumber as [|? phoneNumber]; [discriminate|]).
    destruct phoneNumber; [|discriminate].
    reflexivity.
  - unfold formatPhoneNumber.
    destruct (Nat.eqb_spec (String.length phoneNumber) 10);
      [contradiction | reflexivity].
Qed.

End DisplayFacts.

(** ** Facts about the service worker's cache cleanup *)

Module ServiceWorkerFacts.

Import ServiceWorker.

Lemma NoDup_list_filter {A : Type} (f : A -> bool) (l : list A) :
  NoDup l -> NoDup (List.filter f l).
Proof.
  induction 1 as [|x l Hx Hl IH]; cbn; [constructor|].
  destruct (f x); [|exact IH].
  constructor; [|exact IH].
  intros Hin. apply Hx.
  apply list_elem_of_In in Hin. apply filter_In in Hin as [Hin _].
  apply list_elem_of_In. exact Hin.
Qed.

Section Version.

Variable CACHE_VERSION : string.

Lemma outdated_false (name : string) :
  outdated CACHE_VERSION name = false <->
  (String.prefix "jawala-" name = true ->
   name = CACHE_NAME CACHE_VERSION \/ name = RUNTIME_CACHE CACHE_VERSION).
Proof.
  unfold outdated.
  destruct (String.prefix "jawala-" name);
    destruct (String.eqb_spec name (CACHE_NAME CACHE_VERSION));
    destruct (String.eqb_spec name (RUNTIME_CACHE CACHE_VERSION));
    cbn; split; intros H; try reflexivity; try discriminate; auto.
  destruct (H eq_refl); contradiction.
Qed.

Lemma current_names_prefixed :
  String.prefix "jawala-" (CACHE_NAME CACHE_VERSION) = true /\
  String.prefix "jawala-" (RUNTIME_CACHE CACHE_VERSION) = true.
Proof. split; reflexivity. Qed.

(** X21. The cleanup of the [activate] handler keeps a cache exactly when
    it is one of the two caches of the current version or its name does
    not start with [jawala-]; so of the application's caches at most two
    are left, a second activation deletes nothing more, and a
    [CLEAR_CACHE] message then removes the two current ones as well. *)
Theorem activate_keeps_current_caches (cacheNames : list string) :
  NoDup cacheNames ->
  let kept := activate CACHE_VERSION cacheNames in
  (forall name, In name kept <->
     In name cacheNames /\
     (String.prefix "jawala-" name = true ->
      name = CACHE_NAME CACHE_VERSION \/
      name = RUNTIME_CACHE CACHE_VERSION)) /\
  (length (List.filter (String.prefix "jawala-") kept) <= 2)%nat /\
  activate CACHE_VERSION kept = kept /\
  (forall name, In name (clear_cache_message kept) <->
     In name cacheNames /\ String.prefix "jawala-" name = false).
Proof.
  intros Hnd kept.
  assert (Hin : forall name, In name kept <->
     In name cacheNames /\
     (String.prefix "jawala-" name = true ->
      name = CACHE_NAME CACHE_VERSION \/
      name = RUNTIME_CACHE CACHE_VERSION)).
  { intros name. unfold kept, activate. rewrite filter_In.
    rewrite negb_true_iff, outdated_false. reflexivity. }
  split; [exact Hin|]. split; [|split].
  - change 2%nat with
      (length [CACHE_NAME CACHE_VERSION; RUNTIME_CACHE CACHE_VERSION]).
    apply submseteq_length, NoDup_submseteq.
    + apply NoDup_list_filter, NoDup_list_filter, Hnd.
    + intros name Hname. apply list_elem_of_In in Hname.
      apply filter_In in Hname as [Hk Hp].
      apply Hin in Hk as [_ Hk].
      destruct (Hk Hp) as [-> | ->].
      * apply elem_of_cons. left. reflexivity.
      * apply elem_of_cons. right. apply elem_of_cons. left. reflexivity.
  - unfold activate at 1.
    apply forallb_filter_id, forallb_forall.
    intros name Hname. apply negb_true_iff, outdated_false.
    apply Hin in Hname as [_ Hname]. exact Hname.
  - intros name. unfold clear_cache_message. rewrite filter_In, Hin.
    rewrite negb_true_iff. split.
    + intros [[Hn _] Hp]. split; assumption.
    + intros [Hn Hp]. split; [split|]; try assumption.
      rewrite Hp. discriminate.
Qed.

End Version.

Lemma activate_keeps_current_caches_witness :
  let cacheNames :=
    ["jawala-business-v1.0.7"; "jawala-runtime-v1.0.8"; "fonts"] in
  NoDup cacheNames /\
  let kept := activate "1.0.8" cacheNames in
  (forall name, In name kept <->
     In name cacheNames /\
     (String.prefix "jawala-" name = true ->
      name = CACHE_NAME "1.0.8" \/ name = RUNTIME_CACHE "1.0.8")) /\
  (length (List.filter (String.prefix "jawala-") kept) <= 2)%nat /\
  activate "1.0.8" kept = kept /\
  (forall name, In name (clear_cache_message kept) <->
     In name cacheNames /\ String.prefix "jawala-" name = false).
Proof.
  intros cacheNames.
  assert (Hnd : NoDup cacheNames).
  { apply (bool_decide_unpack _). vm_compute. reflexivity. }
  split; [exact Hnd|].
  apply (activate_keeps_current_caches "1.0.8" cacheNames). exact Hnd.
Defined.

End ServiceWorkerFacts.
